(** * InsertQueryBuilder (kysely): a shallow embedding and its properties

    Source: [src/query-builder/insert-query-builder.ts].

    The builder is a JavaScript object holding a frozen [#props] record
    [{queryId, queryNode, executor}].  Object identity matters for what
    the builder promises (every method hands back a new object, nodes are
    cloned, never edited), so objects live in a store indexed by
    references; builder methods are computations over that store.  The
    executor is a collaborator that is not part of this file: its
    operations are taken as parameters, and every call that crosses this
    boundary is recorded in a call log. *)

From stdpp Require Import prelude gmap strings.

Set Default Proof Using "Type".
Open Scope Z_scope.

(** ** Types that the builder only passes around *)

(** The node fragments produced by the parsers, the query identity token
    and the driver's row type are opaque to the builder. *)
Class NodeModel := {
  OperationNode : Type;
  QueryId : Type;
  Row : Type;
}.

(** References to objects in the store. *)
Abbreviation loc := positive.

Module Node.
Section Nodes.
Context `{NodeModel}.

(** [ColumnNode.create(name)]. *)
Record ColumnNode := ColumnNode_create { column : string }.

Record ReturningNode := { selections : list OperationNode }.

(** Modelled from the spec: the conflict clause of section 3 (the node
    declarations are not part of the builder's file): a target
    specification plus an action. *)
Inductive ConflictTarget :=
| TargetColumns (cols : list ColumnNode)
| TargetConstraint (name : string)
| TargetExpression (e : OperationNode).

Inductive ConflictAction :=
| DoNothing
| DoUpdate (sets : list OperationNode) (filter : option OperationNode).

Record OnConflictNode := {
  target : option ConflictTarget;
  action : option ConflictAction;
}.

(** [OnConflictNode.create()]: nothing chosen yet. *)
Definition OnConflictNode_create : OnConflictNode :=
  {| target := None; action := None |}.

(** [OnDuplicateKeyNode.create(updates)]. *)
Record OnDuplicateKeyNode := OnDuplicateKeyNode_create {
  updates : list OperationNode;
}.

Record ExplainNode := {
  format : option string;
  options : option OperationNode;
}.

(** Modelled from the spec: the insert query root of section 3 (declared
    in operation-node/insert-query-node.ts, which is not part of the
    builder's file).  Optional fields are [None] when the JavaScript
    property is absent. *)
Record InsertQueryNode := {
  into : OperationNode;
  columns : option (list ColumnNode);
  values : option OperationNode;
  returning : option ReturningNode;
  onConflict : option OnConflictNode;
  onDuplicateKey : option OnDuplicateKeyNode;
  ignore : option bool;
  explain : option ExplainNode;
}.

(** The partial set of field overrides handed to [InsertQueryNode.cloneWith];
    a field that is [None] is not mentioned in the override object. *)
Record InsertQueryNodeProps := {
  set_columns : option (list ColumnNode);
  set_values : option OperationNode;
  set_onConflict : option OnConflictNode;
  set_onDuplicateKey : option OnDuplicateKeyNode;
  set_ignore : option bool;
}.

(** One property of [{...node, ...props}]. *)
Definition spread {A} (old override : option A) : option A :=
  match override with
  | Some v => Some v
  | None => old
  end.

(** Modelled from the spec: the clone-with function of section 4.1, on
    node contents: overridden fields replaced, all others copied. *)
Definition cloneWith_fields (node : InsertQueryNode)
    (props : InsertQueryNodeProps) : InsertQueryNode :=
  {| into := into node;
     columns := spread (columns node) (set_columns props);
     values := spread (values node) (set_values props);
     returning := returning node;
     onConflict := spread (onConflict node) (set_onConflict props);
     onDuplicateKey := spread (onDuplicateKey node) (set_onDuplicateKey props);
     ignore := spread (ignore node) (set_ignore props);
     explain := explain node |}.

(** Modelled from the spec: [QueryNode.cloneWithReturning] attaches a
    returning clause; selections of an earlier [returning] call are kept
    and the new ones follow them, as the documentation of [$if] in the
    builder's file describes. *)
Definition cloneWithReturning_fields (node : InsertQueryNode)
    (sels : list OperationNode) : InsertQueryNode :=
  {| into := into node;
     columns := columns node;
     values := values node;
     returning :=
       Some {| selections :=
                 match returning node with
                 | Some r => selections r ++ sels
                 | None => sels
                 end |};
     onConflict := onConflict node;
     onDuplicateKey := onDuplicateKey node;
     ignore := ignore node;
     explain := explain node |}.

(** Modelled from the spec: [QueryNode.cloneWithExplain] (attach-explain). *)
Definition cloneWithExplain_fields (node : InsertQueryNode)
    (fmt : option string) (opts : option OperationNode) : InsertQueryNode :=
  {| into := into node;
     columns := columns node;
     values := values node;
     returning := returning node;
     onConflict := onConflict node;
     onDuplicateKey := onDuplicateKey node;
     ignore := ignore node;
     explain := Some {| format := fmt; options := opts |} |}.

(** The sub-builder handed to the [onConflict] callback. *)
Record OnConflictBuilder := { onConflictNode : OnConflictNode }.

(** ** Values that can be thrown *)

(** An error class that is constructed from the query node. *)
Inductive ErrorConstructor :=
| NoResultError
| CustomErrorClass (name : string).

Inductive Exception :=
| ErrorInstance (ctor : ErrorConstructor) (node : InsertQueryNode)
| ShapeError (message : string)
| CapabilityError (message : string)
| DriverError (message : string)
| OtherError (message : string)
| TypeError.

Inductive Result (A : Type) :=
| Ok (a : A)
| Err (e : Exception).
Global Arguments Ok {A} a.
Global Arguments Err {A} e.

(** ** Results *)

(** The driver's raw result; the count fields are JavaScript bigints. *)
Record QueryResult := {
  rows : list Row;
  insertId : option Z;
  numAffectedRows : option Z;
  numUpdatedOrDeletedRows : option Z;
}.

(** [new InsertResult(insertId, numInsertedOrUpdatedRows)]. *)
Record InsertResult := new_InsertResult {
  ir_insertId : option Z;
  ir_numInsertedOrUpdatedRows : option Z;
}.

(** Modelled from the spec: the compiled query of section 3. *)
Record CompiledQuery := {
  query : InsertQueryNode;
  sql : string;
  parameters : list OperationNode;
}.

(** What [execute] hands back: driver rows, or the synthesized result. *)
Inductive ResultItem :=
| DriverRow (r : Row)
| Synthesized (r : InsertResult).

(** [a ?? b]. *)
Definition nullish {A} (a b : option A) : option A :=
  match a with
  | Some v => Some v
  | None => b
  end.

(** Truthiness of an optional object property. *)
Definition truthy {A} (o : option A) : bool :=
  match o with
  | Some _ => true
  | None => false
  end.

End Nodes.
End Node.
Import Node.

(** ** The collaborators of the builder *)

(** [executor.adapter]. *)
Record DialectAdapter := { supportsReturning : bool }.

(** The parsers and the executor are imported by the builder's file and
    defined elsewhere; the builder is verified against any of them.

    Modelled from the spec: parsers are pure and may fail at builder-call
    time (section 4.2); the executor's [transformQuery], [compileQuery]
    and [withPlugin] are pure, executors are immutable values
    (sections 4.4 and 4.6); [executeQuery] and the retrieval of a stream
    chunk are round trips to the externally owned driver state, here
    [World] (section 5). *)
Class Collaborators `{NodeModel} := {
  InsertExpression : Type;
  ExpressionOrFactory : Type;
  UpdateExpression : Type;
  SelectArg : Type;
  parseInsertExpression :
    InsertExpression → Result (list ColumnNode * OperationNode);
  parseExpression : ExpressionOrFactory → Result OperationNode;
  parseUpdateExpression : UpdateExpression → Result (list OperationNode);
  parseSelectArg : SelectArg → Result (list OperationNode);
  parseSelectAll : list OperationNode;

  QueryExecutor : Type;
  KyselyPlugin : Type;
  World : Type;
  Cursor : Type;
  adapter : QueryExecutor → DialectAdapter;
  QueryExecutor_withPlugin : QueryExecutor → KyselyPlugin → QueryExecutor;
  QueryExecutor_transformQuery :
    QueryExecutor → InsertQueryNode → QueryId → InsertQueryNode;
  QueryExecutor_compileQuery :
    QueryExecutor → InsertQueryNode → QueryId → Result CompiledQuery;
  QueryExecutor_executeQuery :
    QueryExecutor → CompiledQuery → QueryId → World →
    Result QueryResult * World;
  QueryExecutor_stream :
    QueryExecutor → CompiledQuery → Z → QueryId → Cursor;
  Cursor_next :
    Cursor → World → Result (option (QueryResult * Cursor)) * World;
}.

Module InsertQueryBuilder.
Section Builder.
Context `{Collaborators}.

(** ** Objects, the store, and the call log *)

Record InsertQueryBuilderProps := {
  queryId : QueryId;
  queryNode : loc;
  executor : QueryExecutor;
}.

(** The two kinds of frozen objects the builder allocates. *)
Inductive Obj :=
| ONode (n : InsertQueryNode)
| OBuilder (p : InsertQueryBuilderProps).

(** One entry per call the builder makes on its executor. *)
Inductive Event :=
| EvTransformQuery (ex : QueryExecutor) (node : InsertQueryNode) (qid : QueryId)
| EvCompileQuery (ex : QueryExecutor) (node : InsertQueryNode) (qid : QueryId)
| EvExecuteQuery (ex : QueryExecutor) (cq : CompiledQuery) (qid : QueryId)
| EvStream (ex : QueryExecutor) (cq : CompiledQuery) (chunkSize : Z)
    (qid : QueryId).

Record State := {
  heap : gmap loc Obj;
  trace : list Event;
  world : World;
}.

(** ** Computations: state passing with exceptions *)

Inductive Outcome (A : Type) :=
| Ret (a : A)
| Throw (e : Exception).
Global Arguments Ret {A} a.
Global Arguments Throw {A} e.

Definition M (A : Type) : Type := State → Outcome A * State.

Definition ret {A} (a : A) : M A := λ s, (Ret a, s).

Definition throw {A} (e : Exception) : M A := λ s, (Throw e, s).

Definition bind {A B} (m : M A) (k : A → M B) : M B :=
  λ s, match m s with
       | (Ret a, s') => k a s'
       | (Throw e, s') => (Throw e, s')
       end.

Notation "x <- m ;; k" := (bind m (λ x, k))
  (at level 100, m at next level, right associativity).

(** A pure step that may fail. *)
Definition lift {A} (r : Result A) : M A :=
  match r with
  | Ok a => ret a
  | Err e => throw e
  end.

(** Allocation of a frozen object at a reference not yet in use. *)
Definition alloc (o : Obj) : M loc :=
  λ s, let l := fresh (dom (heap s)) in
       (Ret l, {| heap := <[l := o]> (heap s);
                  trace := trace s;
                  world := world s |}).

Definition log (ev : Event) : M unit :=
  λ s, (Ret (), {| heap := heap s;
                   trace := trace s ++ [ev];
                   world := world s |}).

(** A round trip to the driver. *)
Definition round_trip {A} (f : World → Result A * World) : M A :=
  λ s, let '(r, w) := f (world s) in
       lift r {| heap := heap s; trace := trace s; world := w |}.

(** [this.#props]: a private member, present on builders only. *)
Definition this_props (b : loc) : M InsertQueryBuilderProps :=
  λ s, match heap s !! b with
       | Some (OBuilder p) => (Ret p, s)
       | _ => (Throw TypeError, s)
       end.

(** Reading the properties of a node object. *)
Definition read_node (r : loc) : M InsertQueryNode :=
  λ s, match heap s !! r with
       | Some (ONode n) => (Ret n, s)
       | _ => (Throw TypeError, s)
       end.

(** [constructor(props) { this.#props = freeze(props) }]. *)
Definition new_InsertQueryBuilder (props : InsertQueryBuilderProps) : M loc :=
  alloc (OBuilder props).

(** [{...props, queryNode}]. *)
Definition with_queryNode (props : InsertQueryBuilderProps) (r : loc) :
    InsertQueryBuilderProps :=
  {| queryId := queryId props; queryNode := r; executor := executor props |}.

(** [{...props, executor}]. *)
Definition with_executor (props : InsertQueryBuilderProps)
    (ex : QueryExecutor) : InsertQueryBuilderProps :=
  {| queryId := queryId props; queryNode := queryNode props; executor := ex |}.

(** [InsertQueryNode.cloneWith(node, props)]: [freeze({...node, ...props})],
    a new object. *)
Definition InsertQueryNode_cloneWith (node : loc)
    (props : InsertQueryNodeProps) : M loc :=
  n <- read_node node ;;
  alloc (ONode (cloneWith_fields n props)).

Definition QueryNode_cloneWithReturning (node : loc)
    (sels : list OperationNode) : M loc :=
  n <- read_node node ;;
  alloc (ONode (cloneWithReturning_fields n sels)).

Definition QueryNode_cloneWithExplain (node : loc) (fmt : option string)
    (opts : option OperationNode) : M loc :=
  n <- read_node node ;;
  alloc (ONode (cloneWithExplain_fields n fmt opts)).

(** ** Calls on the executor *)

Definition executor_transformQuery (ex : QueryExecutor)
    (node : InsertQueryNode) (qid : QueryId) : M InsertQueryNode :=
  _ <- log (EvTransformQuery ex node qid) ;;
  ret (QueryExecutor_transformQuery ex node qid).

Definition executor_compileQuery (ex : QueryExecutor)
    (node : InsertQueryNode) (qid : QueryId) : M CompiledQuery :=
  _ <- log (EvCompileQuery ex node qid) ;;
  lift (QueryExecutor_compileQuery ex node qid).

Definition executor_executeQuery (ex : QueryExecutor) (cq : CompiledQuery)
    (qid : QueryId) : M QueryResult :=
  _ <- log (EvExecuteQuery ex cq qid) ;;
  round_trip (QueryExecutor_executeQuery ex cq qid).

Definition executor_stream (ex : QueryExecutor) (cq : CompiledQuery)
    (chunkSize : Z) (qid : QueryId) : M Cursor :=
  _ <- log (EvStream ex cq chunkSize qid) ;;
  ret (QueryExecutor_stream ex cq chunkSize qid).

(** ** Builder methods *)

Definition values (insert : InsertExpression) (b : loc) : M loc :=
  parsed <- lift (parseInsertExpression insert) ;;
  let '(columns, values) := parsed in
  props <- this_props b ;;
  node <- InsertQueryNode_cloneWith (queryNode props)
            {| set_columns := Some columns; set_values := Some values;
               set_onConflict := None; set_onDuplicateKey := None;
               set_ignore := None |} ;;
  new_InsertQueryBuilder (with_queryNode props node).

Definition columns (columns : list string) (b : loc) : M loc :=
  props <- this_props b ;;
  node <- InsertQueryNode_cloneWith (queryNode props)
            {| set_columns := Some (map ColumnNode_create columns);
               set_values := None; set_onConflict := None;
               set_onDuplicateKey := None; set_ignore := None |} ;;
  new_InsertQueryBuilder (with_queryNode props node).

Definition expression (expression : ExpressionOrFactory) (b : loc) : M loc :=
  props <- this_props b ;;
  values <- lift (parseExpression expression) ;;
  node <- InsertQueryNode_cloneWith (queryNode props)
            {| set_columns := None; set_values := Some values;
               set_onConflict := None; set_onDuplicateKey := None;
               set_ignore := None |} ;;
  new_InsertQueryBuilder (with_queryNode props node).

Definition ignore (b : loc) : M loc :=
  props <- this_props b ;;
  node <- InsertQueryNode_cloneWith (queryNode props)
            {| set_columns := None; set_values := None;
               set_onConflict := None; set_onDuplicateKey := None;
               set_ignore := Some true |} ;;
  new_InsertQueryBuilder (with_queryNode props node).

(** The callback receives a sub-builder over an empty conflict node and
    hands back the sub-builder whose node is attached; like every caller
    function it may throw. *)
Definition onConflict
    (callback : OnConflictBuilder → Result OnConflictBuilder) (b : loc) :
    M loc :=
  props <- this_props b ;;
  built <- lift (callback {| onConflictNode := OnConflictNode_create |}) ;;
  node <- InsertQueryNode_cloneWith (queryNode props)
            {| set_columns := None; set_values := None;
               set_onConflict := Some (onConflictNode built);
               set_onDuplicateKey := None; set_ignore := None |} ;;
  new_InsertQueryBuilder (with_queryNode props node).

Definition onDuplicateKeyUpdate (update : UpdateExpression) (b : loc) :
    M loc :=
  props <- this_props b ;;
  updates <- lift (parseUpdateExpression update) ;;
  node <- InsertQueryNode_cloneWith (queryNode props)
            {| set_columns := None; set_values := None;
               set_onConflict := None;
               set_onDuplicateKey := Some (OnDuplicateKeyNode_create updates);
               set_ignore := None |} ;;
  new_InsertQueryBuilder (with_queryNode props node).

Definition returning (selection : SelectArg) (b : loc) : M loc :=
  props <- this_props b ;;
  sels <- lift (parseSelectArg selection) ;;
  node <- QueryNode_cloneWithReturning (queryNode props) sels ;;
  new_InsertQueryBuilder (with_queryNode props node).

Definition returningAll (b : loc) : M loc :=
  props <- this_props b ;;
  node <- QueryNode_cloneWithReturning (queryNode props) parseSelectAll ;;
  new_InsertQueryBuilder (with_queryNode props node).

(** [$call(func)]. *)
Definition dollar_call {T} (func : loc → M T) (b : loc) : M T :=
  func b.

(** [call(func)], deprecated. *)
Definition call {T} (func : loc → M T) (b : loc) : M T :=
  dollar_call func b.

(** [$if(condition, func)]. *)
Definition dollar_if (condition : bool) (func : loc → M loc) (b : loc) :
    M loc :=
  if condition then func b
  else
    props <- this_props b ;;
    new_InsertQueryBuilder props.

(** [if(condition, func)], deprecated. *)
Definition if_ (condition : bool) (func : loc → M loc) (b : loc) : M loc :=
  dollar_if condition func b.

(** [$castTo()]. *)
Definition dollar_castTo (b : loc) : M loc :=
  props <- this_props b ;;
  new_InsertQueryBuilder props.

(** [castTo()], deprecated. *)
Definition castTo (b : loc) : M loc :=
  dollar_castTo b.

(** [$assertType()]. *)
Definition dollar_assertType (b : loc) : M loc :=
  props <- this_props b ;;
  new_InsertQueryBuilder props.

(** [assertType()], deprecated. *)
Definition assertType (b : loc) : M loc :=
  props <- this_props b ;;
  new_InsertQueryBuilder props.

Definition withPlugin (plugin : KyselyPlugin) (b : loc) : M loc :=
  props <- this_props b ;;
  new_InsertQueryBuilder
    (with_executor props (QueryExecutor_withPlugin (executor props) plugin)).

(** ** Terminal operations *)

Definition toOperationNode (b : loc) : M InsertQueryNode :=
  props <- this_props b ;;
  node <- read_node (queryNode props) ;;
  executor_transformQuery (executor props) node (queryId props).

Definition compile (b : loc) : M CompiledQuery :=
  props <- this_props b ;;
  node <- toOperationNode b ;;
  executor_compileQuery (executor props) node (queryId props).

Definition execute (b : loc) : M (list ResultItem) :=
  compiledQuery <- compile b ;;
  let query := query compiledQuery in
  props <- this_props b ;;
  result <- executor_executeQuery (executor props) compiledQuery
              (queryId props) ;;
  if supportsReturning (adapter (executor props)) && truthy (Node.returning query)
  then ret (map DriverRow (rows result))
  else ret [Synthesized
              (new_InsertResult (insertId result)
                 (nullish (numAffectedRows result)
                    (numUpdatedOrDeletedRows result)))].

(** [const [result] = await this.execute()]: the first element, or
    [undefined] (here [None]) when there is none. *)
Definition executeTakeFirst (b : loc) : M (option ResultItem) :=
  results <- execute b ;;
  ret (head results).

(** The argument of [executeTakeFirstOrThrow]: an error class, or a
    callback (a function without a [prototype]) from the query node to
    the error. *)
Inductive ErrorFactory :=
| Constructor (ctor : ErrorConstructor)
| Callback (f : InsertQueryNode → Exception).

(** [isNoResultErrorConstructor(fn)]: does [fn] own a [prototype]? *)
Definition isNoResultErrorConstructor (fn : ErrorFactory) : bool :=
  match fn with
  | Constructor _ => true
  | Callback _ => false
  end.

(** [new fn(node)]; a function without a prototype cannot be
    constructed. *)
Definition construct (fn : ErrorFactory) (node : InsertQueryNode) :
    Exception :=
  match fn with
  | Constructor ctor => ErrorInstance ctor node
  | Callback _ => TypeError
  end.

(** [fn(node)]; a class cannot be called without [new]. *)
Definition call_factory (fn : ErrorFactory) (node : InsertQueryNode) :
    Exception :=
  match fn with
  | Constructor _ => TypeError
  | Callback f => f node
  end.

(** The error of [executeTakeFirstOrThrow]. *)
Definition make_error (errorConstructor : ErrorFactory)
    (node : InsertQueryNode) : Exception :=
  if isNoResultErrorConstructor errorConstructor
  then construct errorConstructor node
  else call_factory errorConstructor node.

Definition executeTakeFirstOrThrow (arg : option ErrorFactory) (b : loc) :
    M ResultItem :=
  let errorConstructor := default (Constructor NoResultError) arg in
  result <- executeTakeFirst b ;;
  match result with
  | None =>
      node <- toOperationNode b ;;
      throw (make_error errorConstructor node)
  | Some row => ret row
  end.

(** [for await (const item of stream) yield* item.rows], run by a
    consumer that iterates to the end: the rows are collected in the
    order they are yielded.  Each turn of the loop fetches one chunk;
    [None] is returned when [fuel] turns did not reach the end of the
    driver's stream. *)
Fixpoint for_await (fuel : nat) (stream : Cursor) (yielded : list Row) :
    M (option (list Row)) :=
  match fuel with
  | O => ret None
  | S fuel' =>
      item <- round_trip (Cursor_next stream) ;;
      match item with
      | None => ret (Some yielded)
      | Some (item, stream') =>
          for_await fuel' stream' (yielded ++ rows item)
      end
  end.

Definition stream (fuel : nat) (arg : option Z) (b : loc) :
    M (option (list Row)) :=
  let chunkSize := default 100 arg in
  compiledQuery <- compile b ;;
  props <- this_props b ;;
  stream <- executor_stream (executor props) compiledQuery chunkSize
              (queryId props) ;;
  for_await fuel stream [].

Definition explain (format : option string) (options : option OperationNode)
    (b : loc) : M (list ResultItem) :=
  props <- this_props b ;;
  node <- QueryNode_cloneWithExplain (queryNode props) format options ;;
  builder <- new_InsertQueryBuilder (with_queryNode props node) ;;
  execute builder.

(** ** Vocabulary for the properties *)

(** A call of one of the methods that derive a builder from a builder,
    with its arguments. *)
Inductive BuilderCall :=
| Call_values (insert : InsertExpression)
| Call_columns (columns : list string)
| Call_expression (expression : ExpressionOrFactory)
| Call_ignore
| Call_onConflict (callback : OnConflictBuilder → Result OnConflictBuilder)
| Call_onDuplicateKeyUpdate (update : UpdateExpression)
| Call_returning (selection : SelectArg)
| Call_returningAll
| Call_withPlugin (plugin : KyselyPlugin).

Definition invoke (m : BuilderCall) (b : loc) : M loc :=
  match m with
  | Call_values insert => values insert b
  | Call_columns cols => columns cols b
  | Call_expression e => expression e b
  | Call_ignore => ignore b
  | Call_onConflict callback => onConflict callback b
  | Call_onDuplicateKeyUpdate update => onDuplicateKeyUpdate update b
  | Call_returning selection => returning selection b
  | Call_returningAll => returningAll b
  | Call_withPlugin plugin => withPlugin plugin b
  end.

Definition error_of {A} (r : Result A) : option Exception :=
  match r with
  | Ok _ => None
  | Err e => Some e
  end.

(** The error with which the parser or the callback of a call rejects
    its arguments, if it does. *)
Definition rejected (m : BuilderCall) : option Exception :=
  match m with
  | Call_values insert => error_of (parseInsertExpression insert)
  | Call_expression e => error_of (parseExpression e)
  | Call_onConflict callback =>
      error_of (callback {| onConflictNode := OnConflictNode_create |})
  | Call_onDuplicateKeyUpdate update => error_of (parseUpdateExpression update)
  | Call_returning selection => error_of (parseSelectArg selection)
  | Call_columns _ | Call_ignore | Call_returningAll | Call_withPlugin _ =>
      None
  end.

Definition is_withPlugin (m : BuilderCall) : bool :=
  match m with
  | Call_withPlugin _ => true
  | _ => false
  end.

(** In store [s], [b] is a builder with properties [p] whose root node
    has contents [n]. *)
Definition is_builder (s : State) (b : loc) (p : InsertQueryBuilderProps)
    (n : InsertQueryNode) : Prop :=
  heap s !! b = Some (OBuilder p) ∧ heap s !! queryNode p = Some (ONode n).

(** The state after the executor calls [evs] and with driver state [w]. *)
Definition after (s : State) (evs : list Event) (w : World) : State :=
  {| heap := heap s; trace := trace s ++ evs; world := w |}.

(** The store extended by one object. *)
Definition extended (s : State) (l : loc) (o : Obj) : State :=
  {| heap := <[l := o]> (heap s); trace := trace s; world := world s |}.

Definition event_queryId (ev : Event) : QueryId :=
  match ev with
  | EvTransformQuery _ _ qid => qid
  | EvCompileQuery _ _ qid => qid
  | EvExecuteQuery _ _ qid => qid
  | EvStream _ _ _ qid => qid
  end.

(** Calls that reach the driver. *)
Definition is_dispatch (ev : Event) : bool :=
  match ev with
  | EvExecuteQuery _ _ _ | EvStream _ _ _ _ => true
  | _ => false
  end.

(** The shape [execute] gives to the driver's result. *)
Definition synthesized (result : QueryResult) : ResultItem :=
  Synthesized
    (new_InsertResult (insertId result)
       (nullish (numAffectedRows result) (numUpdatedOrDeletedRows result))).

(** The chunks a driver stream delivers, from first to last, and the
    driver state it ends in. *)
Inductive delivers : Cursor → World → list QueryResult → World → Prop :=
| delivers_end c w w' :
    Cursor_next c w = (Ok None, w') →
    delivers c w [] w'
| delivers_chunk c w item c' w' items w'' :
    Cursor_next c w = (Ok (Some (item, c')), w') →
    delivers c' w' items w'' →
    delivers c w (item :: items) w''.

(** The two statements of the builder's contract that do not hold as
    they are worded, as predicates of one call. *)

(** "Calling the method twice with identical arguments yields query
    roots that are not reference-identical." *)
Definition roots_not_shared (m : BuilderCall) (b : loc) (s : State) : Prop :=
  ∀ b1 s1 b2 s2 p1 p2,
    invoke m b s = (Ret b1, s1) →
    invoke m b s1 = (Ret b2, s2) →
    heap s2 !! b1 = Some (OBuilder p1) →
    heap s2 !! b2 = Some (OBuilder p2) →
    queryNode p1 ≠ queryNode p2.

(** "The builder [$if] returns carries the query id of the builder it
    was called on." *)
Definition dollar_if_keeps_queryId (condition : bool) (func : loc → M loc)
    (b : loc) (s : State) : Prop :=
  ∀ p b1 s1 p1,
    heap s !! b = Some (OBuilder p) →
    dollar_if condition func b s = (Ret b1, s1) →
    heap s1 !! b1 = Some (OBuilder p1) →
    queryId p1 = queryId p.

(** The outcome of a method that clones the root to contents [n'] and
    wraps it in a new builder: two allocations, first the node, then the
    builder. *)
Definition derived (s : State) (p : InsertQueryBuilderProps)
    (n' : InsertQueryNode) : Outcome loc * State :=
  let r := fresh (dom (heap s)) in
  let s1 := extended s r (ONode n') in
  let b' := fresh (dom (heap s1)) in
  (Ret b', extended s1 b' (OBuilder (with_queryNode p r))).

(** The outcome of a method that wraps properties [p'] in a new builder. *)
Definition rewrapped (s : State) (p' : InsertQueryBuilderProps) :
    Outcome loc * State :=
  let b' := fresh (dom (heap s)) in
  (Ret b', extended s b' (OBuilder p')).

(** The way a fallible pure step ends. *)
Definition outcome {A} (r : Result A) : Outcome A :=
  match r with
  | Ok a => Ret a
  | Err e => Throw e
  end.

(** The executor calls of [compile], of [execute] and of [stream] on a
    builder with properties [p] and root contents [n]. *)
Definition transformed (p : InsertQueryBuilderProps) (n : InsertQueryNode) :
    InsertQueryNode :=
  QueryExecutor_transformQuery (executor p) n (queryId p).

Definition compile_calls (p : InsertQueryBuilderProps) (n : InsertQueryNode) :
    list Event :=
  [EvTransformQuery (executor p) n (queryId p);
   EvCompileQuery (executor p) (transformed p n) (queryId p)].

Definition execute_calls (p : InsertQueryBuilderProps) (n : InsertQueryNode)
    (cq : CompiledQuery) : list Event :=
  compile_calls p n ++ [EvExecuteQuery (executor p) cq (queryId p)].

Definition stream_calls (p : InsertQueryBuilderProps) (n : InsertQueryNode)
    (cq : CompiledQuery) (chunkSize : Z) : list Event :=
  compile_calls p n ++ [EvStream (executor p) cq chunkSize (queryId p)].

(** From [s] to [s'] the call log only grew, and every executor call
    that was added carries the query id [qid]. *)
Definition calls_carry (qid : QueryId) (s s' : State) : Prop :=
  ∃ evs, trace s' = trace s ++ evs ∧ ∀ ev, ev ∈ evs → event_queryId ev = qid.

(** The operations that use the executor. *)
Inductive TerminalCall :=
| Term_toOperationNode
| Term_compile
| Term_execute
| Term_executeTakeFirst
| Term_executeTakeFirstOrThrow (arg : option ErrorFactory)
| Term_stream (fuel : nat) (arg : option Z)
| Term_explain (format : option string) (options : option OperationNode).

(** The state a terminal operation leaves, however it ends. *)
Definition final_state (t : TerminalCall) (b : loc) (s : State) : State :=
  match t with
  | Term_toOperationNode => snd (toOperationNode b s)
  | Term_compile => snd (compile b s)
  | Term_execute => snd (execute b s)
  | Term_executeTakeFirst => snd (executeTakeFirst b s)
  | Term_executeTakeFirstOrThrow arg => snd (executeTakeFirstOrThrow arg b s)
  | Term_stream fuel arg => snd (stream fuel arg b s)
  | Term_explain format options => snd (explain format options b s)
  end.

(** A function [qb => qb.m1(...).m2(...)...] that derives its result from
    its argument by a chain of method calls. *)
Fixpoint chain (ms : list BuilderCall) (b : loc) : M loc :=
  match ms with
  | [] => ret b
  | m :: ms' =>
      b' <- invoke m b ;;
      chain ms' b'
  end.

(** ** Vocabulary for the properties of composition and failure *)

(** The methods that change the static type of the builder only. *)
Inductive Recast :=
| Recast_dollar_castTo
| Recast_castTo
| Recast_dollar_assertType
| Recast_assertType.

Definition recast (c : Recast) (b : loc) : M loc :=
  match c with
  | Recast_dollar_castTo => dollar_castTo b
  | Recast_castTo => castTo b
  | Recast_dollar_assertType => dollar_assertType b
  | Recast_assertType => assertType b
  end.

(** One step of a function that derives a builder from its argument: a
    call of a builder method, of a type-only method ([$castTo] and its
    like), or of [$if] with a false flag. *)
Inductive Step :=
| Step_call (m : BuilderCall)
| Step_recast (c : Recast)
| Step_if_false (func : loc → M loc).

Definition step (st : Step) (b : loc) : M loc :=
  match st with
  | Step_call m => invoke m b
  | Step_recast c => recast c b
  | Step_if_false func => dollar_if false func b
  end.

(** A function [qb => qb.step1(...).step2(...)...]. *)
Fixpoint derivation (sts : list Step) (b : loc) : M loc :=
  match sts with
  | [] => ret b
  | st :: sts' =>
      b' <- step st b ;;
      derivation sts' b'
  end.

(** The parts of a builder that a method sets: the properties it hands
    to the clone function, or the executor. *)
Inductive Part :=
| PColumns
| PValues
| PReturning
| POnConflict
| POnDuplicateKey
| PIgnore
| PExecutor.

Definition Part_eqb (x y : Part) : bool :=
  match x, y with
  | PColumns, PColumns | PValues, PValues | PReturning, PReturning
  | POnConflict, POnConflict | POnDuplicateKey, POnDuplicateKey
  | PIgnore, PIgnore | PExecutor, PExecutor => true
  | _, _ => false
  end.

Definition touches (m : BuilderCall) : list Part :=
  match m with
  | Call_values _ => [PColumns; PValues]
  | Call_columns _ => [PColumns]
  | Call_expression _ => [PValues]
  | Call_ignore => [PIgnore]
  | Call_onConflict _ => [POnConflict]
  | Call_onDuplicateKeyUpdate _ => [POnDuplicateKey]
  | Call_returning _ | Call_returningAll => [PReturning]
  | Call_withPlugin _ => [PExecutor]
  end.

(** Methods that add to what an earlier call of theirs left. *)
Definition accumulates (m : BuilderCall) : bool :=
  match m with
  | Call_returning _ | Call_returningAll | Call_withPlugin _ => true
  | _ => false
  end.

(** Two calls that set no part in common. *)
Definition independent (m1 m2 : BuilderCall) : bool :=
  forallb (λ x, negb (existsb (Part_eqb x) (touches m2))) (touches m1).

(** [m'] sets again every part that [m] set, and [m] does not
    accumulate. *)
Definition overrides (m' m : BuilderCall) : bool :=
  negb (accumulates m) &&
  forallb (λ x, existsb (Part_eqb x) (touches m')) (touches m).

(** Part [x] has the same value in the builder with properties [p1]
    and root contents [n1] as in the one with [p] and [n]. *)
Definition part_unchanged (x : Part) (p p1 : InsertQueryBuilderProps)
    (n n1 : InsertQueryNode) : Prop :=
  match x with
  | PColumns => Node.columns n1 = Node.columns n
  | PValues => Node.values n1 = Node.values n
  | PReturning => Node.returning n1 = Node.returning n
  | POnConflict => Node.onConflict n1 = Node.onConflict n
  | POnDuplicateKey => onDuplicateKey n1 = onDuplicateKey n
  | PIgnore => Node.ignore n1 = Node.ignore n
  | PExecutor => executor p1 = executor p
  end.

(** The contents of the root that a call gives to the builder it
    returns, from the contents [n] of the receiver's root. *)
Definition derived_fields (m : BuilderCall) (n : InsertQueryNode) :
    Result InsertQueryNode :=
  match m with
  | Call_values insert =>
      match parseInsertExpression insert with
      | Ok (columns, values) =>
          Ok (cloneWith_fields n
                {| set_columns := Some columns; set_values := Some values;
                   set_onConflict := None; set_onDuplicateKey := None;
                   set_ignore := None |})
      | Err e => Err e
      end
  | Call_columns cols =>
      Ok (cloneWith_fields n
            {| set_columns := Some (map ColumnNode_create cols);
               set_values := None; set_onConflict := None;
               set_onDuplicateKey := None; set_ignore := None |})
  | Call_expression e =>
      match parseExpression e with
      | Ok values =>
          Ok (cloneWith_fields n
                {| set_columns := None; set_values := Some values;
                   set_onConflict := None; set_onDuplicateKey := None;
                   set_ignore := None |})
      | Err e => Err e
      end
  | Call_ignore =>
      Ok (cloneWith_fields n
            {| set_columns := None; set_values := None;
               set_onConflict := None; set_onDuplicateKey := None;
               set_ignore := Some true |})
  | Call_onConflict callback =>
      match callback {| onConflictNode := OnConflictNode_create |} with
      | Ok built =>
          Ok (cloneWith_fields n
                {| set_columns := None; set_values := None;
                   set_onConflict := Some (onConflictNode built);
                   set_onDuplicateKey := None; set_ignore := None |})
      | Err e => Err e
      end
  | Call_onDuplicateKeyUpdate update =>
      match parseUpdateExpression update with
      | Ok updates =>
          Ok (cloneWith_fields n
                {| set_columns := None; set_values := None;
                   set_onConflict := None;
                   set_onDuplicateKey :=
                     Some (OnDuplicateKeyNode_create updates);
                   set_ignore := None |})
      | Err e => Err e
      end
  | Call_returning selection =>
      match parseSelectArg selection with
      | Ok sels => Ok (cloneWithReturning_fields n sels)
      | Err e => Err e
      end
  | Call_returningAll => Ok (cloneWithReturning_fields n parseSelectAll)
  | Call_withPlugin _ => Ok n
  end.

(** The executor a call gives to the builder it returns. *)
Definition derived_executor (m : BuilderCall) (ex : QueryExecutor) :
    QueryExecutor :=
  match m with
  | Call_withPlugin plugin => QueryExecutor_withPlugin ex plugin
  | _ => ex
  end.

(** The plugins installed by a chain of calls, in call order. *)
Definition plugins_of (ms : list BuilderCall) : list KyselyPlugin :=
  omap (λ m, match m with
             | Call_withPlugin plugin => Some plugin
             | _ => None
             end) ms.

(** The error of the first call of a chain that rejects its arguments. *)
Definition first_rejected (ms : list BuilderCall) : option Exception :=
  head (omap rejected ms).

(** From root contents [n] to [n'] the target table and the explain
    clause are the same and no clause was removed. *)
Definition keeps_clauses (n n' : InsertQueryNode) : Prop :=
  into n' = into n ∧
  Node.explain n' = Node.explain n ∧
  (is_Some (Node.columns n) → is_Some (Node.columns n')) ∧
  (is_Some (Node.values n) → is_Some (Node.values n')) ∧
  (is_Some (Node.returning n) → is_Some (Node.returning n')) ∧
  (is_Some (Node.onConflict n) → is_Some (Node.onConflict n')) ∧
  (is_Some (onDuplicateKey n) → is_Some (onDuplicateKey n')) ∧
  (Node.ignore n = Some true → Node.ignore n' = Some true).

(** A driver stream that delivers [k] chunks and then fails with [e]. *)
Inductive breaks : Cursor → World → nat → Exception → World → Prop :=
| breaks_now c w e w' :
    Cursor_next c w = (Err e, w') →
    breaks c w 0 e w'
| breaks_later c w item c' w' k e w'' :
    Cursor_next c w = (Ok (Some (item, c')), w') →
    breaks c' w' k e w'' →
    breaks c w (S k) e w''.

(** The calls that reached the driver between [s] and [s']. *)
Definition dispatched (s s' : State) : list Event :=
  List.filter is_dispatch (drop (length (trace s)) (trace s')).

(** Computations that leave the store as it is, that only add objects to
    it, and that in addition neither call the executor nor reach the
    driver. *)
Definition keeps_store {A} (m : M A) : Prop :=
  ∀ s, heap (snd (m s)) = heap s.

Definition extends_store {A} (m : M A) : Prop :=
  ∀ s, heap s ⊆ heap (snd (m s)).

Definition only_allocates {A} (m : M A) : Prop :=
  ∀ s, heap s ⊆ heap (snd (m s)) ∧
       trace (snd (m s)) = trace s ∧
       world (snd (m s)) = world s.

End Builder.

(** ** A small instance to run the builder on

    Node fragments and rows are strings.  The executor is a list of
    plugin names (each plugin leaves the query as it is) and the
    adapter's flag; its compiler renders the table name only.  The
    driver counts round trips in its state; it answers an [insert
    ignore] with no row and any other insert with one row, and streams
    five rows in chunks of the requested size. *)
Module Example.

Definition model : NodeModel :=
  {| OperationNode := string; QueryId := string; Row := string |}.

Record Executor := {
  plugin_names : list string;
  returning_supported : bool;
}.

Definition parse_rows (insert : list (list (string * string))) :
    @Result model (list ColumnNode * string) :=
  match insert with
  | [] => Err (ShapeError "no rows")
  | row :: _ =>
      Ok (map (λ kv, ColumnNode_create (fst kv)) row,
          String.concat "," (map snd (mjoin insert)))
  end.

Definition answer (cq : @CompiledQuery model) (round_trips : nat) :
    @QueryResult model :=
  @Build_QueryResult model
    match Node.ignore (query cq) with
    | Some true => []
    | _ => ["row 1"%string]
    end
    (Some (Z.of_nat round_trips + 1)) (Some 1) None.

Fixpoint chunks_of (fuel size : nat) (l : list string) : list (list string) :=
  match fuel, l with
  | S fuel', _ :: _ => take size l :: chunks_of fuel' size (drop size l)
  | _, _ => []
  end.

Definition five_rows : list string :=
  ["r1"; "r2"; "r3"; "r4"; "r5"]%string.

Definition next_chunk (c : list (list string)) (round_trips : nat) :
    @Result model (option (@QueryResult model * list (list string))) * nat :=
  match c with
  | [] => (Ok None, S round_trips)
  | chunk :: c' =>
      (Ok (Some (@Build_QueryResult model chunk None None None, c')),
       S round_trips)
  end.

Definition collaborators : @Collaborators model :=
  {| InsertExpression := list (list (string * string));
     ExpressionOrFactory := string;
     UpdateExpression := list string;
     SelectArg := list string;
     parseInsertExpression := parse_rows;
     parseExpression := λ e, Ok e;
     parseUpdateExpression := λ u, Ok u;
     parseSelectArg := λ sel, Ok sel;
     parseSelectAll := ["*"%string];
     QueryExecutor := Executor;
     KyselyPlugin := string;
     World := nat;
     Cursor := list (list string);
     adapter := λ ex, {| supportsReturning := returning_supported ex |};
     QueryExecutor_withPlugin := λ ex plugin,
       {| plugin_names := plugin_names ex ++ [plugin];
          returning_supported := returning_supported ex |};
     QueryExecutor_transformQuery := λ ex node qid, node;
     QueryExecutor_compileQuery := λ ex node qid,
       Ok {| query := node;
             sql := String.append "insert into " (into node);
             parameters := [] |};
     QueryExecutor_executeQuery := λ ex cq qid round_trips,
       (Ok (answer cq round_trips), S round_trips);
     QueryExecutor_stream := λ ex cq chunkSize qid,
       chunks_of 5 (Z.to_nat chunkSize) five_rows;
     Cursor_next := next_chunk |}.

(** [insert into person]. *)
Definition person : @InsertQueryNode model :=
  @Build_InsertQueryNode model "person"%string None None None None None None
    None.

(** [insert ignore into pet returning *]. *)
Definition pet : @InsertQueryNode model :=
  @Build_InsertQueryNode model "pet"%string None None
    (Some (@Build_ReturningNode model ["*"%string])) None None (Some true)
    None.

Definition postgres : Executor :=
  {| plugin_names := []; returning_supported := true |}.

Definition person_props : @InsertQueryBuilderProps model collaborators :=
  @Build_InsertQueryBuilderProps model collaborators "q1"%string 1%positive
    postgres.

Definition pet_props : @InsertQueryBuilderProps model collaborators :=
  @Build_InsertQueryBuilderProps model collaborators "q2"%string 3%positive
    postgres.

(** What the example compiler makes of the two roots. *)
Definition person_compiled : @CompiledQuery model :=
  @Build_CompiledQuery model person "insert into person" [].

Definition pet_compiled : @CompiledQuery model :=
  @Build_CompiledQuery model pet "insert into pet" [].

(** The five rows in chunks of two. *)
Definition chunks_of_two : list (@QueryResult model) :=
  [@Build_QueryResult model ["r1"; "r2"]%string None None None;
   @Build_QueryResult model ["r3"; "r4"]%string None None None;
   @Build_QueryResult model ["r5"]%string None None None].

(** Two queries under construction: builder 2 over node 1, builder 4
    over node 3; the driver has not been contacted yet. *)
Definition s0 : @State model collaborators :=
  @Build_State model collaborators
    (<[4%positive := OBuilder pet_props]>
       (<[3%positive := ONode pet]>
          (<[2%positive := OBuilder person_props]>
             (<[1%positive := ONode person]> ∅))))
    [] 0%nat.

End Example.

(** ** A second instance, whose collaborators fail

    A dialect without [returning] and without [on conflict]: the
    compiler rejects a root with a conflict clause, the driver counts
    the rows of the table and rejects a second row unless the insert
    ignores duplicates, and its stream loses the connection after the
    first chunk. *)
Module Mysql.

Definition compile_insert (node : @InsertQueryNode Example.model) :
    @Result Example.model (@CompiledQuery Example.model) :=
  if truthy (Node.onConflict node)
  then Err (CapabilityError "on conflict is not supported")
  else Ok (@Build_CompiledQuery Example.model node
             (String.append "insert into " (into node)) []).

Definition insert_row (cq : @CompiledQuery Example.model) (stored : nat) :
    @Result Example.model (@QueryResult Example.model) * nat :=
  match stored, Node.ignore (query cq) with
  | O, _ =>
      (Ok (@Build_QueryResult Example.model [] (Some 1) (Some 1) None), 1%nat)
  | S _, Some true =>
      (Ok (@Build_QueryResult Example.model [] None (Some 0) None), stored)
  | S _, _ => (Err (DriverError "duplicate key"), stored)
  end.

Definition next_or_lost (c : list (option (list string))) (stored : nat) :
    @Result Example.model
      (option (@QueryResult Example.model * list (option (list string))))
    * nat :=
  match c with
  | [] => (Ok None, stored)
  | Some chunk :: c' =>
      (Ok (Some (@Build_QueryResult Example.model chunk None None None, c')),
       stored)
  | None :: _ => (Err (DriverError "connection lost"), stored)
  end.

Definition collaborators : @Collaborators Example.model :=
  {| InsertExpression := list (list (string * string));
     ExpressionOrFactory := string;
     UpdateExpression := list string;
     SelectArg := list string;
     parseInsertExpression := Example.parse_rows;
     parseExpression := λ e, Ok e;
     parseUpdateExpression := λ u, Ok u;
     parseSelectArg := λ sel, Ok sel;
     parseSelectAll := ["*"%string];
     QueryExecutor := list string;
     KyselyPlugin := string;
     World := nat;
     Cursor := list (option (list string));
     adapter := λ ex, {| supportsReturning := false |};
     QueryExecutor_withPlugin := λ ex plugin, ex ++ [plugin];
     QueryExecutor_transformQuery := λ ex node qid, node;
     QueryExecutor_compileQuery := λ ex node qid, compile_insert node;
     QueryExecutor_executeQuery := λ ex cq qid, insert_row cq;
     QueryExecutor_stream := λ ex cq chunkSize qid,
       [Some ["r1"; "r2"]%string; None];
     Cursor_next := next_or_lost |}.

(** [insert into person on conflict on constraint person_pkey do nothing]. *)
Definition upsert : @InsertQueryNode Example.model :=
  @Build_InsertQueryNode Example.model "person"%string None None None
    (Some (@Build_OnConflictNode Example.model
             (Some (TargetConstraint "person_pkey")) (Some DoNothing)))
    None None None.

Definition person_props : @InsertQueryBuilderProps Example.model collaborators :=
  @Build_InsertQueryBuilderProps Example.model collaborators "q1"%string
    1%positive [].

Definition upsert_props : @InsertQueryBuilderProps Example.model collaborators :=
  @Build_InsertQueryBuilderProps Example.model collaborators "q2"%string
    3%positive [].

Definition person_compiled : @CompiledQuery Example.model :=
  @Build_CompiledQuery Example.model Example.person "insert into person" [].

(** Builder 2 inserts into [person], builder 4 is the upsert; the table
    already holds one row. *)
Definition s0 : @State Example.model collaborators :=
  @Build_State Example.model collaborators
    (<[4%positive := OBuilder upsert_props]>
       (<[3%positive := ONode upsert]>
          (<[2%positive := OBuilder person_props]>
             (<[1%positive := ONode Example.person]> ∅))))
    [] 1%nat.

End Mysql.

(** ** Calls and chains to run on the two instances *)
Module Scenario.

(** [oc => oc.constraint('person_pkey').doNothing()]. *)
Definition on_pkey_do_nothing (oc : @OnConflictBuilder Example.model) :
    @Result Example.model (@OnConflictBuilder Example.model) :=
  Ok (@Build_OnConflictBuilder Example.model
        (@Build_OnConflictNode Example.model
           (Some (TargetConstraint "person_pkey")) (Some DoNothing))).

(** [oc => oc.column('name').doUpdateSet({species: 'hamster'})]. *)
Definition on_name_do_update (oc : @OnConflictBuilder Example.model) :
    @Result Example.model (@OnConflictBuilder Example.model) :=
  Ok (@Build_OnConflictBuilder Example.model
        (@Build_OnConflictNode Example.model
           (Some (TargetColumns [ColumnNode_create "name"]))
           (Some (@DoUpdate Example.model ["species = hamster"%string] None)))).

(** [qb.withPlugin(camel_case).ignore().withPlugin(with_schema)]. *)
Definition plugins_and_ignore :
    list (@BuilderCall Example.model Example.collaborators) :=
  [@Call_withPlugin Example.model Example.collaborators "camel_case"%string;
   Call_ignore;
   @Call_withPlugin Example.model Example.collaborators "with_schema"%string].

(** [qb.ignore().values([]).returningAll()]. *)
Definition rejected_midway :
    list (@BuilderCall Example.model Example.collaborators) :=
  [Call_ignore; @Call_values Example.model Example.collaborators [];
   Call_returningAll].

(** [qb.columns(['name']).ignore()]. *)
Definition columns_then_ignore :
    list (@BuilderCall Example.model Example.collaborators) :=
  [@Call_columns Example.model Example.collaborators ["name"%string];
   Call_ignore].

(** [explain insert into person], as the example compiler renders it. *)
Definition person_explained_compiled : @CompiledQuery Example.model :=
  @Build_CompiledQuery Example.model
    (cloneWithExplain_fields Example.person (Some "json"%string) None)
    "insert into person" [].

(** Two queries on the same table, each started by its own
    [insertInto('person')]: builder 2 over node 1 with query id [q1],
    builder 4 over node 3 with query id [q2]. *)
Definition other_person_props :
    @InsertQueryBuilderProps Example.model Example.collaborators :=
  @Build_InsertQueryBuilderProps Example.model Example.collaborators
    "q2"%string 3%positive Example.postgres.

Definition two_person_queries : @State Example.model Example.collaborators :=
  @Build_State Example.model Example.collaborators
    (<[4%positive := OBuilder other_person_props]>
       (<[3%positive := ONode Example.person]>
          (<[2%positive := OBuilder Example.person_props]>
             (<[1%positive := ONode Example.person]> ∅))))
    [] 0%nat.

(** [qb => qb.returningAll().$castTo().$if(false, f).ignore()]. *)
Definition returning_recast_ignore :
    list (@Step Example.model Example.collaborators) :=
  [Step_call Call_returningAll; Step_recast Recast_dollar_castTo;
   Step_if_false (λ qb, ret qb); Step_call Call_ignore].

End Scenario.

Section Properties.
Context `{Collaborators}.

(** ** Running computations *)

Lemma bind_ret {A B} (m : M A) (k : A → M B) s a s' :
  m s = (Ret a, s') → bind m k s = k a s'.
Proof. intros Hm. unfold bind. by rewrite Hm. Qed.

Lemma bind_throw {A B} (m : M A) (k : A → M B) s e s' :
  m s = (Throw e, s') → bind m k s = (Throw e, s').
Proof. intros Hm. unfold bind. by rewrite Hm. Qed.

Lemma this_props_run s b p :
  heap s !! b = Some (OBuilder p) → this_props b s = (Ret p, s).
Proof. intros Hb. unfold this_props. by rewrite Hb. Qed.

Lemma read_node_run s r n :
  heap s !! r = Some (ONode n) → read_node r s = (Ret n, s).
Proof. intros Hr. unfold read_node. by rewrite Hr. Qed.

Lemma fresh_unused (h : gmap loc Obj) : h !! fresh (dom h) = None.
Proof. apply not_elem_of_dom, is_fresh. Qed.

Lemma extended_subseteq s l o :
  heap s !! l = None → heap s ⊆ heap (extended s l o).
Proof. intros Hl. simpl. by apply insert_subseteq. Qed.

Lemma is_builder_weaken s s' b p n :
  heap s ⊆ heap s' → is_builder s b p n → is_builder s' b p n.
Proof.
  intros Hsub [Hb Hn]. split; eapply lookup_weaken; eauto.
Qed.

(** ** The methods that derive a builder *)

Lemma clone_and_wrap_run s b p n (edit : InsertQueryNode → InsertQueryNode)
    (clone : loc → M loc) :
  (∀ s', clone (queryNode p) s' =
         bind (read_node (queryNode p)) (λ n0, alloc (ONode (edit n0))) s') →
  is_builder s b p n →
  bind (clone (queryNode p))
    (λ node, new_InsertQueryBuilder (with_queryNode p node)) s
  = derived s p (edit n).
Proof.
  intros Hclone [_ Hn]. unfold bind at 1. rewrite Hclone.
  erewrite bind_ret by (by apply read_node_run). done.
Qed.

Lemma cloneWith_wrap_run s b p n props :
  is_builder s b p n →
  bind (InsertQueryNode_cloneWith (queryNode p) props)
    (λ node, new_InsertQueryBuilder (with_queryNode p node)) s
  = derived s p (cloneWith_fields n props).
Proof.
  intros Hb.
  by apply (clone_and_wrap_run s b p n (λ n0, cloneWith_fields n0 props)
              (λ r, InsertQueryNode_cloneWith r props)).
Qed.

Lemma cloneWithReturning_wrap_run s b p n sels :
  is_builder s b p n →
  bind (QueryNode_cloneWithReturning (queryNode p) sels)
    (λ node, new_InsertQueryBuilder (with_queryNode p node)) s
  = derived s p (cloneWithReturning_fields n sels).
Proof.
  intros Hb.
  by apply (clone_and_wrap_run s b p n
              (λ n0, cloneWithReturning_fields n0 sels)
              (λ r, QueryNode_cloneWithReturning r sels)).
Qed.

Lemma withPlugin_run s b p plugin :
  heap s !! b = Some (OBuilder p) →
  withPlugin plugin b s =
  rewrapped s (with_executor p (QueryExecutor_withPlugin (executor p) plugin)).
Proof.
  intros Hb. unfold withPlugin.
  by erewrite bind_ret by (by apply this_props_run).
Qed.

(** The three ways a call can go, as proof steps: the parser rejects the
    arguments with [err]; or the root is cloned and wrapped, which leaves
    the run of the method on a store [s] with [Hb : is_builder s b p n]
    to be computed. *)
Ltac rejects err :=
  left; exists err; split; [done|]; intros s Hb.

Ltac clones_root :=
  right; left; split; [done|]; split; [done|]; eexists; intros s Hb.

Ltac read_props Hb :=
  erewrite bind_ret by (apply this_props_run, Hb).

(** Every call either is rejected by its parser before anything is
    allocated, or clones the root and wraps the clone, or is
    [withPlugin]. *)
Lemma invoke_cases m b p n :
  (∃ e, rejected m = Some e ∧
        ∀ s, is_builder s b p n → invoke m b s = (Throw e, s)) ∨
  (rejected m = None ∧ is_withPlugin m = false ∧
   ∃ n', ∀ s, is_builder s b p n → invoke m b s = derived s p n') ∨
  (rejected m = None ∧ ∃ plugin, m = Call_withPlugin plugin).
Proof.
  destruct m as [insert|cols|e| |callback|update|selection| |plugin]; simpl.
  - unfold values. destruct (parseInsertExpression insert) as [[c v]|err].
    + clones_root. unfold bind at 1. simpl. read_props Hb.
      by eapply cloneWith_wrap_run.
    + by rejects err.
  - clones_root. unfold columns. read_props Hb.
    by eapply cloneWith_wrap_run.
  - unfold expression. destruct (parseExpression e) as [v|err].
    + clones_root. read_props Hb. unfold bind at 1. simpl.
      by eapply cloneWith_wrap_run.
    + rejects err. by read_props Hb.
  - clones_root. unfold ignore. read_props Hb.
    by eapply cloneWith_wrap_run.
  - unfold onConflict.
    destruct (callback {| onConflictNode := OnConflictNode_create |})
      as [built|err].
    + clones_root. read_props Hb. unfold bind at 1. simpl.
      by eapply cloneWith_wrap_run.
    + rejects err. by read_props Hb.
  - unfold onDuplicateKeyUpdate.
    destruct (parseUpdateExpression update) as [u|err].
    + clones_root. read_props Hb. unfold bind at 1. simpl.
      by eapply cloneWith_wrap_run.
    + rejects err. by read_props Hb.
  - unfold returning. destruct (parseSelectArg selection) as [sels|err].
    + clones_root. read_props Hb. unfold bind at 1. simpl.
      by eapply cloneWithReturning_wrap_run.
    + rejects err. by read_props Hb.
  - clones_root. unfold returningAll. read_props Hb.
    by eapply cloneWithReturning_wrap_run.
  - right; right. split; [done|]. by exists plugin.
Qed.

(** What the two allocations of [derived] leave behind. *)
Lemma derived_spec s p n' :
  ∃ r b' s',
    derived s p n' = (Ret b', s') ∧
    heap s !! r = None ∧ heap s !! b' = None ∧ r ≠ b' ∧
    heap s ⊆ heap s' ∧
    heap s' !! r = Some (ONode n') ∧
    heap s' !! b' = Some (OBuilder (with_queryNode p r)) ∧
    trace s' = trace s ∧ world s' = world s.
Proof.
  unfold derived. simpl.
  set (r := fresh (dom (heap s))).
  set (h1 := <[r := ONode n']> (heap s)).
  set (b' := fresh (dom h1)).
  pose proof (fresh_unused (heap s)) as Hr. fold r in Hr.
  pose proof (fresh_unused h1) as Hb'. fold b' in Hb'.
  unfold h1 in Hb'. apply lookup_insert_None in Hb' as [Hb' Hne].
  exists r, b', (extended (extended s r (ONode n')) b'
                   (OBuilder (with_queryNode p r))).
  split; [done|]. repeat split; simpl; try done.
  - trans (<[r := ONode n']> (heap s)).
    + by apply insert_subseteq.
    + apply insert_subseteq. by rewrite lookup_insert_ne.
  - rewrite lookup_insert_ne by done. by rewrite lookup_insert_eq.
  - by rewrite lookup_insert_eq.
Qed.

Lemma rewrapped_spec s p' :
  ∃ b' s',
    rewrapped s p' = (Ret b', s') ∧
    heap s !! b' = None ∧
    heap s ⊆ heap s' ∧
    heap s' !! b' = Some (OBuilder p') ∧
    trace s' = trace s ∧ world s' = world s.
Proof.
  unfold rewrapped.
  pose proof (fresh_unused (heap s)) as Hb'.
  eexists _, _. split; [done|]. repeat split; simpl; try done.
  - by apply insert_subseteq.
  - by rewrite lookup_insert_eq.
Qed.

Lemma lookup_distinct (h : gmap loc Obj) l l' o :
  h !! l = Some o → h !! l' = None → l ≠ l'.
Proof. congruence. Qed.

(** ** Immutability of the receiver *)

(** C1 (amended).  Let [b] be a builder and [m] a call of [values],
    [columns], [expression], [ignore], [onConflict],
    [onDuplicateKeyUpdate], [returning], [returningAll] or [withPlugin].
    If the parser or callback of [m] rejects the arguments, the call
    throws that error and the store is as before.  Otherwise the call
    returns a reference [b1] that was not in use; every object of the
    store is unchanged, so [b] still has the same properties (query id,
    root reference, executor) and its root the same contents; the call
    log and the driver state are untouched.  Calling [m] on [b] again
    returns another new builder [b2]; the roots of [b1] and [b2] have
    equal contents.  They are different references, both different from
    the root of [b], for every method but [withPlugin]; after
    [withPlugin] both builders hold the root reference of [b]. *)
Theorem builder_call_leaves_receiver m b p n s :
  is_builder s b p n →
  match invoke m b s with
  | (Throw e, s1) => rejected m = Some e ∧ s1 = s
  | (Ret b1, s1) =>
      rejected m = None ∧
      heap s !! b1 = None ∧
      heap s ⊆ heap s1 ∧ trace s1 = trace s ∧ world s1 = world s ∧
      is_builder s1 b p n ∧
      ∃ p1 n1 b2 s2 p2,
        is_builder s1 b1 p1 n1 ∧
        invoke m b s1 = (Ret b2, s2) ∧
        b2 ≠ b1 ∧
        is_builder s2 b p n ∧
        is_builder s2 b1 p1 n1 ∧
        is_builder s2 b2 p2 n1 ∧
        if is_withPlugin m
        then queryNode p1 = queryNode p ∧ queryNode p2 = queryNode p
        else queryNode p1 ≠ queryNode p2 ∧
             queryNode p1 ≠ queryNode p ∧ queryNode p2 ≠ queryNode p
  end.
Proof.
  intros Hb.
  destruct (invoke_cases m b p n)
    as [(e & Hrej & Hrun) | [(Hrej & Hwp & n' & Hrun) | (Hrej & plugin & ->)]].
  - by rewrite (Hrun s Hb).
  - rewrite (Hrun s Hb).
    destruct (derived_spec s p n')
      as (r1 & b1 & s1 & -> & Hr1 & Hb1 & Hne1 & Hsub1 & Hr1' & Hb1' & Ht1 & Hw1).
    assert (is_builder s1 b p n) as Hb_s1 by (by eapply is_builder_weaken).
    destruct (derived_spec s1 p n')
      as (r2 & b2 & s2 & Hrun2 & Hr2 & Hb2 & Hne2 & Hsub2 & Hr2' & Hb2' & Ht2 & Hw2).
    assert (is_builder s1 b1 (with_queryNode p r1) n') as Hb1_s1 by done.
    do 5 (split; [done|]). split; [done|].
    exists (with_queryNode p r1), n', b2, s2, (with_queryNode p r2).
    split; [done|]. split; [by rewrite (Hrun s1 Hb_s1)|].
    split; [by eapply not_eq_sym, lookup_distinct|].
    split; [by eapply is_builder_weaken|].
    split; [by eapply is_builder_weaken|].
    split; [by split|].
    rewrite Hwp. simpl. destruct Hb as [_ Hn], Hb_s1 as [_ Hn1].
    split; [exact (lookup_distinct _ _ _ _ Hr1' Hr2)|].
    split; apply not_eq_sym.
    + exact (lookup_distinct _ _ _ _ Hn Hr1).
    + exact (lookup_distinct _ _ _ _ Hn1 Hr2).
  - simpl invoke. destruct Hb as [Hb Hn].
    rewrite (withPlugin_run s b p plugin Hb).
    destruct (rewrapped_spec s
                (with_executor p (QueryExecutor_withPlugin (executor p) plugin)))
      as (b1 & s1 & -> & Hb1 & Hsub1 & Hb1' & Ht1 & Hw1).
    assert (is_builder s1 b p n) as [Hb_s1 Hn_s1]
      by (by eapply is_builder_weaken).
    rewrite (withPlugin_run s1 b p plugin Hb_s1).
    destruct (rewrapped_spec s1
                (with_executor p (QueryExecutor_withPlugin (executor p) plugin)))
      as (b2 & s2 & -> & Hb2 & Hsub2 & Hb2' & Ht2 & Hw2).
    do 5 (split; [done|]). split; [done|].
    eexists _, n, b2, s2, _.
    split; [by split|]. split; [done|].
    split; [by eapply not_eq_sym, lookup_distinct|].
    split; [by eapply is_builder_weaken|].
    split; [by eapply (is_builder_weaken s1)|].
    split; [split; [done|by eapply lookup_weaken]|].
    done.
Qed.

(** ** Running the terminal operations *)

Lemma lift_run {A} (r : Result A) s : lift r s = (outcome r, s).
Proof. by destruct r. Qed.

Lemma toOperationNode_run s b p n :
  is_builder s b p n →
  toOperationNode b s =
  (Ret (transformed p n),
   after s [EvTransformQuery (executor p) n (queryId p)] (world s)).
Proof.
  intros [Hb Hn]. unfold toOperationNode.
  erewrite bind_ret by (by apply this_props_run).
  by erewrite bind_ret by (by apply read_node_run).
Qed.

Lemma compile_run s b p n :
  is_builder s b p n →
  compile b s =
  (outcome (QueryExecutor_compileQuery (executor p) (transformed p n)
              (queryId p)),
   after s (compile_calls p n) (world s)).
Proof.
  intros Hb. unfold compile.
  erewrite bind_ret by (apply this_props_run, Hb).
  erewrite bind_ret by (by apply toOperationNode_run).
  unfold executor_compileQuery, bind, log. simpl. rewrite lift_run.
  unfold after, compile_calls. simpl. by rewrite <- app_assoc.
Qed.

Lemma execute_run s b p n :
  is_builder s b p n →
  execute b s =
  match QueryExecutor_compileQuery (executor p) (transformed p n) (queryId p)
  with
  | Err e => (Throw e, after s (compile_calls p n) (world s))
  | Ok cq =>
      match QueryExecutor_executeQuery (executor p) cq (queryId p) (world s)
      with
      | (Err e, w) => (Throw e, after s (execute_calls p n cq) w)
      | (Ok result, w) =>
          (Ret (if supportsReturning (adapter (executor p))
                   && truthy (Node.returning (query cq))
                then map DriverRow (rows result)
                else [synthesized result]),
           after s (execute_calls p n cq) w)
      end
  end.
Proof.
  intros Hb. unfold execute.
  pose proof (compile_run s b p n Hb) as Hc.
  destruct (QueryExecutor_compileQuery _ _ _) as [cq|e]; simpl in Hc.
  - erewrite bind_ret by exact Hc.
    erewrite bind_ret by (apply this_props_run, Hb).
    unfold executor_executeQuery, bind at 1, log, round_trip, bind. simpl.
    destruct (QueryExecutor_executeQuery _ _ _ _) as [[result|e] w]; simpl.
    + unfold after, execute_calls. simpl. rewrite <- app_assoc.
      by destruct (supportsReturning _ && truthy _).
    + unfold after, execute_calls. simpl. by rewrite <- app_assoc.
  - by erewrite bind_throw by exact Hc.
Qed.

Lemma executeTakeFirst_run b s :
  executeTakeFirst b s =
  match execute b s with
  | (Ret items, s') => (Ret (head items), s')
  | (Throw e, s') => (Throw e, s')
  end.
Proof. unfold executeTakeFirst, bind. by destruct (execute b s) as [[?|?] ?]. Qed.

(** [execute] allocates nothing. *)
Lemma execute_heap s b p n o s' :
  is_builder s b p n → execute b s = (o, s') → heap s' = heap s.
Proof.
  intros Hb. rewrite (execute_run s b p n Hb).
  destruct (QueryExecutor_compileQuery _ _ _) as [cq|e].
  - destruct (QueryExecutor_executeQuery _ _ _ _) as [[result|e] w];
      by intros [= <- <-].
  - by intros [= <- <-].
Qed.

(** ** compile *)

(** C3.  [compile] hands the builder's root to the executor's
    [transformQuery] and the node that comes back to [compileQuery], both
    with the builder's query id; it returns the compiled query (or throws
    the compiler's error).  These two calls are all it adds to the call
    log: no call reaches the driver, the driver state and the store are
    as before. *)
Theorem compile_transforms_then_compiles b p n s :
  is_builder s b p n →
  ∃ s',
    compile b s =
    (outcome
       (QueryExecutor_compileQuery (executor p)
          (QueryExecutor_transformQuery (executor p) n (queryId p))
          (queryId p)), s') ∧
    trace s' =
    trace s ++
    [EvTransformQuery (executor p) n (queryId p);
     EvCompileQuery (executor p)
       (QueryExecutor_transformQuery (executor p) n (queryId p)) (queryId p)] ∧
    (∀ ev, ev ∈ trace s' → is_dispatch ev = true → ev ∈ trace s) ∧
    world s' = world s ∧
    heap s' = heap s.
Proof.
  intros Hb. exists (after s (compile_calls p n) (world s)).
  split; [by apply compile_run|]. split; [done|]. split; [|done].
  intros ev Hev Hdispatch. simpl in Hev.
  apply elem_of_app in Hev as [Hev|Hev]; [done|].
  unfold compile_calls in Hev.
  apply elem_of_cons in Hev as [->|Hev]; [done|].
  apply elem_of_cons in Hev as [->|Hev]; [done|].
  by apply elem_of_nil in Hev.
Qed.

(** ** execute *)

(** C2.  Let [execute] compile the query to [cq] and the driver answer
    with [result].  If [cq.query] has no returning clause, or the
    adapter's [supportsReturning] is false, [execute] returns exactly one
    element, the [InsertResult] made of [result.insertId] and
    [result.numAffectedRows ?? result.numUpdatedOrDeletedRows], and no
    driver row; if [supportsReturning] is true and a returning clause is
    present, it returns the driver's rows as they are.  In both cases the
    executor was called three times (transformQuery, compileQuery,
    executeQuery) and the driver state is the one the driver left. *)
Theorem execute_synthesizes_without_returning b p n s cq result w :
  is_builder s b p n →
  QueryExecutor_compileQuery (executor p)
    (QueryExecutor_transformQuery (executor p) n (queryId p)) (queryId p)
  = Ok cq →
  QueryExecutor_executeQuery (executor p) cq (queryId p) (world s)
  = (Ok result, w) →
  let s' := after s (execute_calls p n cq) w in
  (Node.returning (query cq) = None ∨
   supportsReturning (adapter (executor p)) = false →
   execute b s =
   (Ret [Synthesized
           (new_InsertResult (insertId result)
              (nullish (numAffectedRows result)
                 (numUpdatedOrDeletedRows result)))], s')) ∧
  (supportsReturning (adapter (executor p)) = true ∧
   is_Some (Node.returning (query cq)) →
   execute b s = (Ret (map DriverRow (rows result)), s')).
Proof.
  intros Hb Hcompile Hdriver s'.
  rewrite (execute_run s b p n Hb). unfold transformed.
  rewrite Hcompile, Hdriver. split.
  - intros [Hnone|Hunsupported].
    + rewrite Hnone. simpl. by rewrite andb_false_r.
    + by rewrite Hunsupported.
  - intros [Hsupported [r Hsome]]. by rewrite Hsupported, Hsome.
Qed.

(** ** executeTakeFirst *)

(** C9.  [executeTakeFirst] ends the way [execute] on the same builder
    ends: it returns the first element of the array [execute] returns,
    and [undefined] exactly when that array is empty; it throws what
    [execute] throws.  It leaves the state [execute] leaves, so the call
    log holds no further executor call and the driver saw no further
    round trip. *)
Theorem executeTakeFirst_is_head_of_execute b s :
  match execute b s with
  | (Ret items, s') =>
      executeTakeFirst b s = (Ret (head items), s') ∧
      (head items = None ↔ items = [])
  | (Throw e, s') => executeTakeFirst b s = (Throw e, s')
  end.
Proof.
  rewrite executeTakeFirst_run.
  destruct (execute b s) as [[items|e] s']; [|done].
  split; [done|]. by destruct items.
Qed.

(** ** executeTakeFirstOrThrow *)

(** C4.  Let [execute] return the array [items].  If it is empty,
    [executeTakeFirstOrThrow] throws: a [NoResultError] instance when it
    was called without argument, an instance of the given class when a
    constructor was passed, and the value the callback returns when a
    callback was passed; constructor and callback receive the operation
    node of the query, that is the builder's root as transformed by the
    executor (this one further [transformQuery] call is logged).  If the
    array is not empty, its first element is returned and nothing is
    thrown. *)
Theorem executeTakeFirstOrThrow_no_result b p n s arg items s' :
  is_builder s b p n →
  execute b s = (Ret items, s') →
  let node := QueryExecutor_transformQuery (executor p) n (queryId p) in
  match items with
  | [] =>
      executeTakeFirstOrThrow arg b s =
      (Throw
         match arg with
         | None => ErrorInstance NoResultError node
         | Some (Constructor ctor) => ErrorInstance ctor node
         | Some (Callback f) => f node
         end,
       after s' [EvTransformQuery (executor p) n (queryId p)] (world s'))
  | row :: _ => executeTakeFirstOrThrow arg b s = (Ret row, s')
  end.
Proof.
  intros Hb Hexec node. unfold executeTakeFirstOrThrow.
  pose proof (executeTakeFirst_run b s) as Hfirst. rewrite Hexec in Hfirst.
  erewrite bind_ret by exact Hfirst.
  destruct items as [|row items]; simpl; [|done].
  assert (is_builder s' b p n) as Hb'.
  { destruct Hb as [Hb Hn]. unfold is_builder.
    by rewrite (execute_heap s b p n _ s' (conj Hb Hn) Hexec). }
  erewrite bind_ret by (by apply toOperationNode_run).
  by destruct arg as [[ctor|f]|].
Qed.

(** C10.  Let the compiled query have no returning clause, or the
    adapter not support returning.  Then [execute] either throws the
    error of the compiler or of the driver, or returns a one-element
    array holding the synthesized result, whatever rows the driver sent.
    [executeTakeFirst] then returns that element, never [undefined], and
    [executeTakeFirstOrThrow] returns it as well, whatever error argument
    it was given: its no-result branch is not taken, and the only errors
    it throws are those [execute] throws. *)
Theorem execute_without_returning_never_empty b p n s arg :
  is_builder s b p n →
  (∀ cq,
     QueryExecutor_compileQuery (executor p)
       (QueryExecutor_transformQuery (executor p) n (queryId p)) (queryId p)
     = Ok cq →
     Node.returning (query cq) = None ∨
     supportsReturning (adapter (executor p)) = false) →
  match execute b s with
  | (Ret items, s') =>
      (∃ cq result,
         QueryExecutor_compileQuery (executor p)
           (QueryExecutor_transformQuery (executor p) n (queryId p))
           (queryId p) = Ok cq ∧
         fst (QueryExecutor_executeQuery (executor p) cq (queryId p) (world s))
         = Ok result ∧
         items = [synthesized result]) ∧
      length items = 1%nat ∧
      (∃ item, executeTakeFirst b s = (Ret (Some item), s') ∧
               executeTakeFirstOrThrow arg b s = (Ret item, s'))
  | (Throw e, s') =>
      (error_of
         (QueryExecutor_compileQuery (executor p)
            (QueryExecutor_transformQuery (executor p) n (queryId p))
            (queryId p)) = Some e ∨
       ∃ cq,
         QueryExecutor_compileQuery (executor p)
           (QueryExecutor_transformQuery (executor p) n (queryId p))
           (queryId p) = Ok cq ∧
         fst (QueryExecutor_executeQuery (executor p) cq (queryId p) (world s))
         = Err e) ∧
      executeTakeFirst b s = (Throw e, s') ∧
      executeTakeFirstOrThrow arg b s = (Throw e, s')
  end.
Proof.
  intros Hb Hquery.
  unfold executeTakeFirstOrThrow. unfold bind.
  rewrite executeTakeFirst_run.
  rewrite (execute_run s b p n Hb). unfold transformed.
  destruct (QueryExecutor_compileQuery _ _ _) as [cq|e] eqn:Hcompile.
  - destruct (QueryExecutor_executeQuery _ _ _ _) as [[result|e] w] eqn:Hdriver.
    + assert (supportsReturning (adapter (executor p))
              && truthy (Node.returning (query cq)) = false) as ->.
      { destruct (Hquery cq eq_refl) as [->| ->]; [|done].
        by rewrite andb_false_r. }
      split; [|split; [done|]].
      * exists cq, result. by rewrite Hdriver.
      * by eexists.
    + split; [|done]. right. exists cq. by rewrite Hdriver.
  - split; [|done]. by left.
Qed.

(** ** $if *)

(** C5.  With a true flag [$if] is the call of the function on the
    builder.  With a false flag the function plays no part: whatever it
    is, [$if] returns a builder that was not in use and holds the very
    properties of the receiver (same query id, same root reference, same
    executor); nothing else changes in the store, nothing is logged and
    the driver is not contacted. *)
Theorem dollar_if_applies_only_when_true b p n s func :
  is_builder s b p n →
  dollar_if true func b s = func b s ∧
  ∃ b',
    (∀ g, dollar_if false g b s = (Ret b', extended s b' (OBuilder p))) ∧
    heap s !! b' = None ∧
    is_builder (extended s b' (OBuilder p)) b' p n ∧
    is_builder (extended s b' (OBuilder p)) b p n.
Proof.
  intros [Hb Hn]. split; [done|].
  pose proof (fresh_unused (heap s)) as Hfresh.
  exists (fresh (dom (heap s))). split; [|split; [done|]].
  - intros g. unfold dollar_if.
    by erewrite bind_ret by (by apply this_props_run).
  - assert (heap s ⊆ heap (extended s (fresh (dom (heap s))) (OBuilder p)))
      as Hsub by (by apply extended_subseteq).
    split.
    + split; [by apply lookup_insert_eq|by eapply lookup_weaken].
    + by eapply is_builder_weaken.
Qed.

(** ** withPlugin *)

(** C8.  [withPlugin(plugin)] returns a builder that was not in use; its
    executor is [executor.withPlugin(plugin)] of the receiver's executor,
    its query id and its root reference are the receiver's.  The receiver
    still holds its own executor, and nothing else changes: the store
    only gains the new builder, the call log and the driver state are as
    before. *)
Theorem withPlugin_changes_only_executor b p n s plugin :
  is_builder s b p n →
  ∃ b' s',
    withPlugin plugin b s = (Ret b', s') ∧
    heap s !! b' = None ∧
    heap s' =
    <[b' := OBuilder
              {| queryId := queryId p;
                 queryNode := queryNode p;
                 executor := QueryExecutor_withPlugin (executor p) plugin |}]>
      (heap s) ∧
    heap s' !! b = Some (OBuilder p) ∧
    heap s' !! queryNode p = Some (ONode n) ∧
    trace s' = trace s ∧
    world s' = world s.
Proof.
  intros [Hb Hn]. rewrite (withPlugin_run s b p plugin Hb). unfold rewrapped.
  pose proof (fresh_unused (heap s)) as Hfresh.
  eexists _, _. split; [done|]. split; [done|]. split; [done|]. simpl.
  split; [|split; [|done]].
  - rewrite lookup_insert_ne; [done|]. by eapply not_eq_sym, lookup_distinct.
  - rewrite lookup_insert_ne; [done|]. by eapply not_eq_sym, lookup_distinct.
Qed.

(** ** stream *)

Lemma for_await_delivers c w chunks w' :
  delivers c w chunks w' →
  ∀ fuel yielded h t,
    (length chunks < fuel)%nat →
    for_await fuel c yielded {| heap := h; trace := t; world := w |} =
    (Ret (Some (yielded ++ concat (map rows chunks))),
     {| heap := h; trace := t; world := w' |}).
Proof.
  induction 1 as [c w w' Hnext|c w item c' w' items w'' Hnext _ IH];
    intros [|fuel] yielded h t Hfuel; simpl in Hfuel; try lia.
  - simpl. unfold bind, round_trip. simpl. rewrite Hnext. simpl.
    by rewrite app_nil_r.
  - simpl. unfold bind, round_trip. simpl. rewrite Hnext. simpl.
    rewrite IH by lia. by rewrite app_assoc.
Qed.

Lemma stream_run s b p n fuel arg :
  is_builder s b p n →
  stream fuel arg b s =
  match QueryExecutor_compileQuery (executor p) (transformed p n) (queryId p)
  with
  | Err e => (Throw e, after s (compile_calls p n) (world s))
  | Ok cq =>
      for_await fuel
        (QueryExecutor_stream (executor p) cq (default 100 arg) (queryId p)) []
        (after s (stream_calls p n cq (default 100 arg)) (world s))
  end.
Proof.
  intros Hb. unfold stream.
  pose proof (compile_run s b p n Hb) as Hc.
  destruct (QueryExecutor_compileQuery _ _ _) as [cq|e]; simpl in Hc.
  - erewrite bind_ret by exact Hc.
    erewrite bind_ret by (apply this_props_run, Hb).
    unfold executor_stream, bind at 1, log, bind, ret. simpl.
    unfold after, stream_calls. simpl. by rewrite <- app_assoc.
  - by erewrite bind_throw by exact Hc.
Qed.

(** C6.  Let the query compile to [cq] and the driver stream opened for
    it deliver the chunks [chunks].  A consumer that iterates [stream]
    to its end (one turn per chunk and one to see the end) receives
    exactly the rows of the chunks, chunk after chunk and in the order
    within each chunk.  The chunk size passed to the executor is the
    argument of [stream], and 100 when there is none. *)
Theorem stream_yields_rows_in_chunk_order b p n s arg cq chunks w fuel :
  is_builder s b p n →
  QueryExecutor_compileQuery (executor p)
    (QueryExecutor_transformQuery (executor p) n (queryId p)) (queryId p)
  = Ok cq →
  let chunkSize := match arg with Some size => size | None => 100 end in
  delivers (QueryExecutor_stream (executor p) cq chunkSize (queryId p))
    (world s) chunks w →
  (length chunks < fuel)%nat →
  ∃ s',
    stream fuel arg b s = (Ret (Some (concat (map rows chunks))), s') ∧
    trace s' =
    trace s ++
    [EvTransformQuery (executor p) n (queryId p);
     EvCompileQuery (executor p)
       (QueryExecutor_transformQuery (executor p) n (queryId p)) (queryId p);
     EvStream (executor p) cq chunkSize (queryId p)] ∧
    (arg = None → EvStream (executor p) cq 100 (queryId p) ∈ trace s') ∧
    world s' = w ∧
    heap s' = heap s.
Proof.
  intros Hb Hcompile chunkSize Hdelivers Hfuel.
  rewrite (stream_run s b p n fuel arg Hb). unfold transformed.
  rewrite Hcompile.
  assert (default 100 arg = chunkSize) as -> by (by destruct arg).
  unfold after.
  rewrite (for_await_delivers _ _ _ _ Hdelivers fuel [] _ _ Hfuel). simpl.
  eexists. split; [done|]. simpl. split; [done|]. split; [|done].
  intros ->. subst chunkSize. simpl.
  apply elem_of_app. right. unfold stream_calls.
  apply elem_of_app. right. by apply list_elem_of_singleton.
Qed.

(** ** The query id *)

Lemma bind_assoc {A B C} (m : M A) (f : A → M B) (g : B → M C) s :
  bind m (λ x, bind (f x) g) s = bind (bind m f) g s.
Proof. unfold bind. by destruct (m s) as [[a|e] s']. Qed.

Lemma for_await_quiet fuel :
  ∀ c yielded s,
    trace (snd (for_await fuel c yielded s)) = trace s ∧
    heap (snd (for_await fuel c yielded s)) = heap s.
Proof.
  induction fuel as [|fuel IH]; intros c yielded s; [done|].
  simpl. unfold bind, round_trip.
  destruct (Cursor_next c (world s)) as [[[[item c']|]|e] w]; simpl; [|done..].
  apply (IH c' (yielded ++ rows item)
           {| heap := heap s; trace := trace s; world := w |}).
Qed.

Lemma explain_run s b p n fmt opts :
  is_builder s b p n →
  ∃ r b1 s1,
    explain fmt opts b s = execute b1 s1 ∧
    heap s !! b1 = None ∧
    heap s ⊆ heap s1 ∧
    is_builder s1 b1 (with_queryNode p r) (cloneWithExplain_fields n fmt opts) ∧
    trace s1 = trace s ∧ world s1 = world s.
Proof.
  intros Hb. unfold explain.
  erewrite bind_ret by (apply this_props_run, Hb).
  rewrite bind_assoc.
  destruct (derived_spec s p (cloneWithExplain_fields n fmt opts))
    as (r & b1 & s1 & Hrun & Hr & Hb1 & Hne & Hsub & Hr' & Hb1' & Ht & Hw).
  exists r, b1, s1. split.
  - apply bind_ret. rewrite <- Hrun.
    by apply (clone_and_wrap_run s b p n
                (λ n0, cloneWithExplain_fields n0 fmt opts)
                (λ r, QueryNode_cloneWithExplain r fmt opts)).
  - done.
Qed.

Lemma executeTakeFirstOrThrow_run s b p n arg :
  is_builder s b p n →
  executeTakeFirstOrThrow arg b s =
  match execute b s with
  | (Ret [], s') =>
      (Throw (make_error (default (Constructor NoResultError) arg)
                (transformed p n)),
       after s' [EvTransformQuery (executor p) n (queryId p)] (world s'))
  | (Ret (row :: _), s') => (Ret row, s')
  | (Throw e, s') => (Throw e, s')
  end.
Proof.
  intros Hb. unfold executeTakeFirstOrThrow. unfold bind at 1.
  rewrite executeTakeFirst_run.
  destruct (execute b s) as [[[|row items]|e] s'] eqn:Hexec; simpl; try done.
  assert (is_builder s' b p n) as Hb'.
  { destruct Hb as [Hb Hn]. unfold is_builder.
    by rewrite (execute_heap s b p n _ s' (conj Hb Hn) Hexec). }
  by erewrite bind_ret by (by apply toOperationNode_run).
Qed.

Lemma calls_carry_refl qid s s' : trace s' = trace s → calls_carry qid s s'.
Proof.
  intros Ht. exists []. split; [by rewrite app_nil_r|].
  intros ev Hev. by apply elem_of_nil in Hev.
Qed.

Lemma calls_carry_trans qid s1 s2 s3 :
  calls_carry qid s1 s2 → calls_carry qid s2 s3 → calls_carry qid s1 s3.
Proof.
  intros (evs & Ht & Hevs) (evs' & Ht' & Hevs'). exists (evs ++ evs').
  split; [by rewrite Ht', Ht, app_assoc|].
  intros ev Hev. apply elem_of_app in Hev as [Hev|Hev]; auto.
Qed.

Lemma calls_carry_after qid s evs w :
  Forall (λ ev, event_queryId ev = qid) evs →
  calls_carry qid s (after s evs w).
Proof.
  intros Hevs. exists evs. split; [done|].
  intros ev Hev. by eapply Forall_forall in Hevs.
Qed.

Lemma compile_calls_carry p n :
  Forall (λ ev, event_queryId ev = queryId p) (compile_calls p n).
Proof. by repeat constructor. Qed.

Lemma execute_calls_carry p n cq :
  Forall (λ ev, event_queryId ev = queryId p) (execute_calls p n cq).
Proof. by repeat constructor. Qed.

Lemma stream_calls_carry p n cq chunkSize :
  Forall (λ ev, event_queryId ev = queryId p) (stream_calls p n cq chunkSize).
Proof. by repeat constructor. Qed.

Lemma execute_carries s b p n :
  is_builder s b p n → calls_carry (queryId p) s (snd (execute b s)).
Proof.
  intros Hb. rewrite (execute_run s b p n Hb).
  destruct (QueryExecutor_compileQuery _ _ _) as [cq|e].
  - destruct (QueryExecutor_executeQuery _ _ _ _) as [[result|e] w];
      apply calls_carry_after, execute_calls_carry.
  - apply calls_carry_after, compile_calls_carry.
Qed.

Lemma terminal_carries t s b p n :
  is_builder s b p n → calls_carry (queryId p) s (final_state t b s).
Proof.
  intros Hb.
  destruct t as [| | | |arg|fuel arg|fmt opts]; simpl.
  - rewrite (toOperationNode_run s b p n Hb).
    apply calls_carry_after. by repeat constructor.
  - rewrite (compile_run s b p n Hb).
    apply calls_carry_after, compile_calls_carry.
  - exact (execute_carries s b p n Hb).
  - rewrite executeTakeFirst_run.
    pose proof (execute_carries s b p n Hb) as Hexec.
    by destruct (execute b s) as [[items|e] s'].
  - rewrite (executeTakeFirstOrThrow_run s b p n arg Hb).
    pose proof (execute_carries s b p n Hb) as Hexec.
    destruct (execute b s) as [[[|row items]|e] s']; simpl in *; try done.
    eapply calls_carry_trans; [exact Hexec|].
    apply calls_carry_after. by repeat constructor.
  - rewrite (stream_run s b p n fuel arg Hb).
    destruct (QueryExecutor_compileQuery _ _ _) as [cq|e].
    + eapply calls_carry_trans.
      * apply calls_carry_after, (stream_calls_carry p n cq (default 100 arg)).
      * apply calls_carry_refl, for_await_quiet.
    + apply calls_carry_after, compile_calls_carry.
  - destruct (explain_run s b p n fmt opts Hb)
      as (r & b1 & s1 & -> & _ & _ & Hb1 & Ht & _).
    pose proof (execute_carries s1 b1 _ _ Hb1) as Hexec. simpl in Hexec.
    eapply calls_carry_trans; [|exact Hexec].
    by apply calls_carry_refl.
Qed.

Lemma invoke_keeps_queryId m s b p n b1 s1 :
  is_builder s b p n →
  invoke m b s = (Ret b1, s1) →
  ∃ p1 n1, is_builder s1 b1 p1 n1 ∧ queryId p1 = queryId p.
Proof.
  intros Hb Hrun.
  destruct (invoke_cases m b p n)
    as [(e & _ & Hthrow) | [(_ & _ & n' & Hderived) | (_ & plugin & ->)]].
  - by rewrite (Hthrow s Hb) in Hrun.
  - rewrite (Hderived s Hb) in Hrun.
    destruct (derived_spec s p n')
      as (r & b' & s' & Hrun' & _ & _ & _ & _ & Hr' & Hb' & _).
    rewrite Hrun' in Hrun. injection Hrun as <- <-.
    exists (with_queryNode p r), n'. split; [by split|done].
  - destruct Hb as [Hb Hn]. simpl in Hrun.
    rewrite (withPlugin_run s b p plugin Hb) in Hrun.
    destruct (rewrapped_spec s
                (with_executor p (QueryExecutor_withPlugin (executor p) plugin)))
      as (b' & s' & Hrun' & _ & Hsub & Hb' & _).
    rewrite Hrun' in Hrun. injection Hrun as <- <-.
    exists (with_executor p (QueryExecutor_withPlugin (executor p) plugin)), n.
    split; [|done].
    split; [done|]. by eapply lookup_weaken.
Qed.

Lemma chain_keeps_queryId ms :
  ∀ s b p n b1 s1,
    is_builder s b p n →
    chain ms b s = (Ret b1, s1) →
    ∃ p1 n1, is_builder s1 b1 p1 n1 ∧ queryId p1 = queryId p.
Proof.
  induction ms as [|m ms IH]; intros s b p n b1 s1 Hb Hrun; simpl in Hrun.
  - injection Hrun as <- <-. by exists p, n.
  - unfold bind in Hrun.
    destruct (invoke m b s) as [[b'|e] s'] eqn:Hm; [|done].
    destruct (invoke_keeps_queryId m s b p n b' s' Hb Hm)
      as (p' & n' & Hb' & Hqid).
    destruct (IH s' b' p' n' b1 s1 Hb' Hrun) as (p1 & n1 & Hb1 & Hqid1).
    exists p1, n1. split; [done|]. by rewrite Hqid1.
Qed.

Lemma rewrap_run s b p :
  heap s !! b = Some (OBuilder p) →
  bind (this_props b) new_InsertQueryBuilder s = rewrapped s p.
Proof. intros Hb. by erewrite bind_ret by (by apply this_props_run). Qed.

Lemma step_keeps_queryId st s b p n b1 s1 :
  is_builder s b p n →
  step st b s = (Ret b1, s1) →
  ∃ p1 n1, is_builder s1 b1 p1 n1 ∧ queryId p1 = queryId p.
Proof.
  intros Hb Hrun. destruct st as [m|c|func]; unfold step in Hrun.
  - by eapply invoke_keeps_queryId.
  - destruct Hb as [Hb Hn].
    assert (recast c b s = rewrapped s p) as Hwrap
      by (rewrite <- (rewrap_run s b p Hb); by destruct c).
    rewrite Hwrap in Hrun.
    destruct (rewrapped_spec s p) as (b' & s' & Hrun' & _ & Hsub & Hb' & _).
    rewrite Hrun' in Hrun. injection Hrun as <- <-.
    exists p, n. split; [|done]. split; [done|by eapply lookup_weaken].
  - destruct Hb as [Hb Hn].
    assert (dollar_if false func b s = rewrapped s p) as Hwrap
      by (by rewrite <- (rewrap_run s b p Hb)).
    rewrite Hwrap in Hrun.
    destruct (rewrapped_spec s p) as (b' & s' & Hrun' & _ & Hsub & Hb' & _).
    rewrite Hrun' in Hrun. injection Hrun as <- <-.
    exists p, n. split; [|done]. split; [done|by eapply lookup_weaken].
Qed.

Lemma derivation_keeps_queryId sts :
  ∀ s b p n b1 s1,
    is_builder s b p n →
    derivation sts b s = (Ret b1, s1) →
    ∃ p1 n1, is_builder s1 b1 p1 n1 ∧ queryId p1 = queryId p.
Proof.
  induction sts as [|st sts IH]; intros s b p n b1 s1 Hb Hrun; simpl in Hrun.
  - injection Hrun as <- <-. by exists p, n.
  - unfold bind in Hrun.
    destruct (step st b s) as [[b'|e] s'] eqn:Hst; [|done].
    destruct (step_keeps_queryId st s b p n b' s' Hb Hst)
      as (p' & n' & Hb' & Hqid).
    destruct (IH s' b' p' n' b1 s1 Hb' Hrun) as (p1 & n1 & Hb1 & Hqid1).
    exists p1, n1. split; [done|]. by rewrite Hqid1.
Qed.

(** C7 (amended).  Let [b] be a builder with query id [q].
    - The builder returned by [values], [columns], [expression],
      [ignore], [onConflict], [onDuplicateKeyUpdate], [returning],
      [returningAll] or [withPlugin] has query id [q]; so has the one
      returned by [$castTo] and by [$if] with a false flag.
    - [$if] with a true flag returns what its function returns: a
      function that derives its result from its argument through the
      methods above, that is by any sequence of calls of the nine
      builder methods, of [$castTo] (or another type-only method) and
      of [$if] with a false flag, gives a builder with query id [q].
    - [explain] returns no builder; the builder it creates and executes
      is new and has query id [q].
    - Every call that [toOperationNode], [compile], [execute],
      [executeTakeFirst], [executeTakeFirstOrThrow], [stream] and
      [explain] make on the executor carries [q]: [compile] calls
      [transformQuery] and [compileQuery] with it, [execute] calls
      [executeQuery] with it and [stream] calls the executor's [stream]
      with it. *)
Theorem queryId_is_threaded b p n s :
  is_builder s b p n →
  (∀ m b1 s1,
     invoke m b s = (Ret b1, s1) →
     ∃ p1, heap s1 !! b1 = Some (OBuilder p1) ∧ queryId p1 = queryId p) ∧
  (∃ b1 s1 p1,
     dollar_castTo b s = (Ret b1, s1) ∧
     heap s1 !! b1 = Some (OBuilder p1) ∧ queryId p1 = queryId p) ∧
  (∀ func, ∃ b1 s1 p1,
     dollar_if false func b s = (Ret b1, s1) ∧
     heap s1 !! b1 = Some (OBuilder p1) ∧ queryId p1 = queryId p) ∧
  (∀ ms b1 s1,
     dollar_if true (chain ms) b s = (Ret b1, s1) →
     ∃ p1, heap s1 !! b1 = Some (OBuilder p1) ∧ queryId p1 = queryId p) ∧
  (∀ sts b1 s1,
     dollar_if true (derivation sts) b s = (Ret b1, s1) →
     ∃ p1, heap s1 !! b1 = Some (OBuilder p1) ∧ queryId p1 = queryId p) ∧
  (∀ fmt opts, ∃ b1 s1 p1 n1,
     explain fmt opts b s = execute b1 s1 ∧
     heap s !! b1 = None ∧
     is_builder s1 b1 p1 n1 ∧ queryId p1 = queryId p) ∧
  (∀ t, calls_carry (queryId p) s (final_state t b s)) ∧
  (EvTransformQuery (executor p) n (queryId p)
     ∈ trace (final_state Term_compile b s) ∧
   EvCompileQuery (executor p)
     (QueryExecutor_transformQuery (executor p) n (queryId p)) (queryId p)
     ∈ trace (final_state Term_compile b s)) ∧
  (∀ cq,
     QueryExecutor_compileQuery (executor p)
       (QueryExecutor_transformQuery (executor p) n (queryId p)) (queryId p)
     = Ok cq →
     EvExecuteQuery (executor p) cq (queryId p)
       ∈ trace (final_state Term_execute b s) ∧
     ∀ fuel arg,
       EvStream (executor p) cq (default 100 arg) (queryId p)
         ∈ trace (final_state (Term_stream fuel arg) b s)).
Proof.
  intros Hb. pose proof Hb as [Hb_props Hb_root].
  pose proof (fresh_unused (heap s)) as Hfresh.
  split.
  { intros m b1 s1 Hrun.
    destruct (invoke_keeps_queryId m s b p n b1 s1 Hb Hrun)
      as (p1 & n1 & [Hb1 _] & Hqid).
    by exists p1. }
  split.
  { exists (fresh (dom (heap s))), (extended s (fresh (dom (heap s))) (OBuilder p)), p.
    split; [|split; [by apply lookup_insert_eq|done]].
    unfold dollar_castTo. by erewrite bind_ret by (by apply this_props_run). }
  split.
  { intros func.
    exists (fresh (dom (heap s))), (extended s (fresh (dom (heap s))) (OBuilder p)), p.
    split; [|split; [by apply lookup_insert_eq|done]].
    unfold dollar_if. by erewrite bind_ret by (by apply this_props_run). }
  split.
  { intros ms b1 s1 Hrun. simpl in Hrun.
    destruct (chain_keeps_queryId ms s b p n b1 s1 Hb Hrun)
      as (p1 & n1 & [Hb1 _] & Hqid).
    by exists p1. }
  split.
  { intros sts b1 s1 Hrun. simpl in Hrun.
    destruct (derivation_keeps_queryId sts s b p n b1 s1 Hb Hrun)
      as (p1 & n1 & [Hb1 _] & Hqid).
    by exists p1. }
  split.
  { intros fmt opts.
    destruct (explain_run s b p n fmt opts Hb)
      as (r & b1 & s1 & Hrun & Hb1 & _ & Hb1' & _).
    exists b1, s1, (with_queryNode p r), (cloneWithExplain_fields n fmt opts).
    split; [done|]. split; [done|]. split; [done|]. done. }
  split.
  { intros t. exact (terminal_carries t s b p n Hb). }
  split.
  { simpl. rewrite (compile_run s b p n Hb). simpl.
    split; apply elem_of_app; right; unfold compile_calls.
    - by apply elem_of_cons; left.
    - apply elem_of_cons; right. by apply list_elem_of_singleton. }
  intros cq Hcompile. split.
  - simpl. rewrite (execute_run s b p n Hb). unfold transformed.
    rewrite Hcompile.
    destruct (QueryExecutor_executeQuery _ _ _ _) as [[result|e] w]; simpl;
      apply elem_of_app; right; apply elem_of_app; right;
      by apply list_elem_of_singleton.
  - intros fuel arg. simpl. rewrite (stream_run s b p n fuel arg Hb).
    unfold transformed. rewrite Hcompile.
    destruct (for_await_quiet fuel
                (QueryExecutor_stream (executor p) cq (default 100 arg)
                   (queryId p)) []
                (after s (stream_calls p n cq (default 100 arg)) (world s)))
      as [-> _].
    simpl. apply elem_of_app; right. apply elem_of_app; right.
    by apply list_elem_of_singleton.
Qed.

(** ** What computations do to the store, the call log and the driver *)

Lemma keeps_store_bind {A B} (m : M A) (k : A → M B) :
  keeps_store m → (∀ a, keeps_store (k a)) → keeps_store (bind m k).
Proof.
  intros Hm Hk s. unfold bind. specialize (Hm s).
  destruct (m s) as [[a|e] s1]; simpl in *; [|done].
  by rewrite Hk.
Qed.

Lemma keeps_store_ret {A} (a : A) : keeps_store (ret a).
Proof. done. Qed.

Lemma keeps_store_throw {A} e : keeps_store (throw (A:=A) e).
Proof. done. Qed.

Lemma keeps_store_lift {A} (r : Result A) : keeps_store (lift r).
Proof. by destruct r. Qed.

Lemma keeps_store_log ev : keeps_store (log ev).
Proof. done. Qed.

Lemma keeps_store_round_trip {A} (f : World → Result A * World) :
  keeps_store (round_trip f).
Proof.
  intros s. unfold round_trip. by destruct (f (world s)) as [[a|e] w].
Qed.

Lemma keeps_store_this_props b : keeps_store (this_props b).
Proof. intros s. unfold this_props. by destruct (heap s !! b) as [[?|?]|]. Qed.

Lemma keeps_store_read_node r : keeps_store (read_node r).
Proof. intros s. unfold read_node. by destruct (heap s !! r) as [[?|?]|]. Qed.

Create HintDb store_keeping.

#[local] Hint Resolve keeps_store_ret keeps_store_throw keeps_store_lift
  keeps_store_log keeps_store_round_trip keeps_store_this_props
  keeps_store_read_node : store_keeping.

(** Splits a computation at its binds and case distinctions and closes
    the leaves with the hints. *)
Ltac keeps_store_steps :=
  repeat first
    [ progress intros
    | apply keeps_store_bind
    | match goal with
      | |- keeps_store (if ?c then _ else _) => destruct c
      | |- keeps_store (match ?x with _ => _ end) => destruct x
      end
    | solve [eauto with store_keeping] ].

Lemma keeps_store_toOperationNode b : keeps_store (toOperationNode b).
Proof.
  unfold toOperationNode, executor_transformQuery. keeps_store_steps.
Qed.

Lemma keeps_store_compile b : keeps_store (compile b).
Proof.
  unfold compile, executor_compileQuery.
  pose proof keeps_store_toOperationNode. keeps_store_steps.
Qed.

Lemma keeps_store_execute b : keeps_store (execute b).
Proof.
  unfold execute, executor_executeQuery.
  pose proof keeps_store_compile. keeps_store_steps.
Qed.

Lemma keeps_store_executeTakeFirst b : keeps_store (executeTakeFirst b).
Proof.
  unfold executeTakeFirst. pose proof keeps_store_execute. keeps_store_steps.
Qed.

Lemma keeps_store_executeTakeFirstOrThrow arg b :
  keeps_store (executeTakeFirstOrThrow arg b).
Proof.
  unfold executeTakeFirstOrThrow.
  pose proof keeps_store_executeTakeFirst.
  pose proof keeps_store_toOperationNode. keeps_store_steps.
Qed.

Lemma keeps_store_for_await fuel :
  ∀ c yielded, keeps_store (for_await fuel c yielded).
Proof.
  induction fuel as [|fuel IH]; intros c yielded; simpl; keeps_store_steps.
Qed.

Lemma keeps_store_stream fuel arg b : keeps_store (stream fuel arg b).
Proof.
  unfold stream, executor_stream.
  pose proof keeps_store_compile. pose proof (keeps_store_for_await fuel).
  keeps_store_steps.
Qed.

Lemma only_allocates_bind {A B} (m : M A) (k : A → M B) :
  only_allocates m → (∀ a, only_allocates (k a)) → only_allocates (bind m k).
Proof.
  intros Hm Hk s. unfold bind. destruct (Hm s) as (Hh & Ht & Hw).
  destruct (m s) as [[a|e] s1]; simpl in *; [|done].
  destruct (Hk a s1) as (Hh' & Ht' & Hw').
  split; [by etrans|]. split; congruence.
Qed.

Lemma only_allocates_ret {A} (a : A) : only_allocates (ret a).
Proof. done. Qed.

Lemma only_allocates_lift {A} (r : Result A) : only_allocates (lift r).
Proof. by destruct r. Qed.

Lemma only_allocates_this_props b : only_allocates (this_props b).
Proof. intros s. unfold this_props. by destruct (heap s !! b) as [[?|?]|]. Qed.

Lemma only_allocates_read_node r : only_allocates (read_node r).
Proof. intros s. unfold read_node. by destruct (heap s !! r) as [[?|?]|]. Qed.

Lemma only_allocates_alloc o : only_allocates (alloc o).
Proof.
  intros s. split; [|done]. simpl. apply insert_subseteq, fresh_unused.
Qed.

Create HintDb allocation.

#[local] Hint Resolve only_allocates_ret only_allocates_lift
  only_allocates_this_props only_allocates_read_node only_allocates_alloc :
  allocation.

Ltac only_allocates_steps :=
  repeat first
    [ progress intros
    | apply only_allocates_bind
    | match goal with
      | |- only_allocates (if ?c then _ else _) => destruct c
      | |- only_allocates (match ?x with _ => _ end) => destruct x
      end
    | solve [eauto with allocation] ].

Lemma only_allocates_invoke m b : only_allocates (invoke m b).
Proof.
  destruct m; simpl;
    unfold values, columns, expression, ignore, onConflict,
      onDuplicateKeyUpdate, returning, returningAll, withPlugin,
      InsertQueryNode_cloneWith, QueryNode_cloneWithReturning,
      new_InsertQueryBuilder;
    only_allocates_steps.
Qed.

Lemma only_allocates_chain ms : ∀ b, only_allocates (chain ms b).
Proof.
  induction ms as [|m ms IH]; intros b; simpl; [done|].
  apply only_allocates_bind; [apply only_allocates_invoke|done].
Qed.

Lemma only_allocates_recast c b : only_allocates (recast c b).
Proof.
  destruct c; simpl;
    unfold castTo, dollar_castTo, dollar_assertType, assertType,
      new_InsertQueryBuilder;
    only_allocates_steps.
Qed.

Lemma extends_store_explain fmt opts b : extends_store (explain fmt opts b).
Proof.
  intros s. unfold explain, QueryNode_cloneWithExplain, new_InsertQueryBuilder.
  unfold bind at 1. destruct (only_allocates_this_props b s) as (Hp & _).
  destruct (this_props b s) as [[props|e] s1]; simpl in *; [|done].
  etrans; [exact Hp|]. clear Hp.
  unfold bind at 1.
  assert (only_allocates
            (bind (read_node (queryNode props))
               (λ n, alloc (ONode (cloneWithExplain_fields n fmt opts)))))
    as Hclone by only_allocates_steps.
  destruct (Hclone s1) as (Hn & _).
  destruct (bind (read_node (queryNode props)) _ s1) as [[node|e] s2];
    simpl in *; [|done].
  etrans; [exact Hn|]. clear Hn.
  unfold bind at 1.
  destruct (only_allocates_alloc (OBuilder (with_queryNode props node)) s2)
    as (Hb & _).
  destruct (alloc _ s2) as [[builder|e] s3]; simpl in *; [|done].
  etrans; [exact Hb|]. by rewrite keeps_store_execute.
Qed.

(** X1.  The terminal operations do not touch the store, however they
    end: after [toOperationNode], [compile], [execute],
    [executeTakeFirst], [executeTakeFirstOrThrow] and [stream] every
    builder and node is as before, and nothing was allocated.  [explain]
    only adds objects. *)
Theorem terminal_operations_leave_store t b s :
  match t with
  | Term_explain _ _ => heap s ⊆ heap (final_state t b s)
  | _ => heap (final_state t b s) = heap s
  end.
Proof.
  destruct t as [| | | |arg|fuel arg|fmt opts]; simpl.
  - apply keeps_store_toOperationNode.
  - apply keeps_store_compile.
  - apply keeps_store_execute.
  - apply keeps_store_executeTakeFirst.
  - apply keeps_store_executeTakeFirstOrThrow.
  - apply keeps_store_stream.
  - apply extends_store_explain.
Qed.

(** X2.  Building a query is silent: a chain of builder methods, also
    one that ends in a rejected call, and the type-only methods only add
    objects to the store.  Every object that existed is unchanged, the
    executor is not asked to transform, compile, execute or stream
    anything, and the driver is not contacted. *)
Theorem construction_only_allocates ms c b s :
  (heap s ⊆ heap (snd (chain ms b s)) ∧
   trace (snd (chain ms b s)) = trace s ∧
   world (snd (chain ms b s)) = world s) ∧
  (heap s ⊆ heap (snd (recast c b s)) ∧
   trace (snd (recast c b s)) = trace s ∧
   world (snd (recast c b s)) = world s).
Proof.
  split; [apply only_allocates_chain|apply only_allocates_recast].
Qed.

(** ** How builder methods compose *)

Lemma invoke_derived m b p n s :
  is_builder s b p n →
  is_withPlugin m = false →
  invoke m b s =
  match derived_fields m n with
  | Ok n' => derived s p n'
  | Err e => (Throw e, s)
  end.
Proof.
  intros Hb Hm.
  destruct m as [insert|cols|e| |callback|update|selection| |plugin];
    try discriminate Hm; simpl.
  - unfold values. destruct (parseInsertExpression insert) as [[c v]|err];
      [|done].
    unfold bind at 1. simpl. read_props Hb. by eapply cloneWith_wrap_run.
  - unfold columns. read_props Hb. by eapply cloneWith_wrap_run.
  - unfold expression. read_props Hb.
    destruct (parseExpression e) as [v|err]; [|done].
    unfold bind at 1. simpl. by eapply cloneWith_wrap_run.
  - unfold ignore. read_props Hb. by eapply cloneWith_wrap_run.
  - unfold onConflict. read_props Hb.
    destruct (callback {| onConflictNode := OnConflictNode_create |})
      as [built|err]; [|done].
    unfold bind at 1. simpl. by eapply cloneWith_wrap_run.
  - unfold onDuplicateKeyUpdate. read_props Hb.
    destruct (parseUpdateExpression update) as [u|err]; [|done].
    unfold bind at 1. simpl. by eapply cloneWith_wrap_run.
  - unfold returning. read_props Hb.
    destruct (parseSelectArg selection) as [sels|err]; [|done].
    unfold bind at 1. simpl. by eapply cloneWithReturning_wrap_run.
  - unfold returningAll. read_props Hb.
    by eapply cloneWithReturning_wrap_run.
Qed.

Lemma derived_executor_same m ex :
  is_withPlugin m = false → derived_executor m ex = ex.
Proof. by destruct m. Qed.

Lemma rejected_derived_fields m n :
  rejected m = error_of (derived_fields m n).
Proof.
  destruct m as [insert|cols|e| |callback|update|selection| |plugin];
    simpl; try done.
  - by destruct (parseInsertExpression insert) as [[c v]|err].
  - by destruct (parseExpression e).
  - by destruct (callback _).
  - by destruct (parseUpdateExpression update).
  - by destruct (parseSelectArg selection).
Qed.

(** The run of a call on a builder, in terms of the contents and the
    executor it gives to the new builder. *)
Lemma invoke_spec m b p n s :
  is_builder s b p n →
  match derived_fields m n with
  | Err e => invoke m b s = (Throw e, s)
  | Ok n1 =>
      ∃ b1 s1 r,
        invoke m b s = (Ret b1, s1) ∧
        heap s !! b1 = None ∧
        heap s ⊆ heap s1 ∧
        is_builder s1 b1
          {| queryId := queryId p; queryNode := r;
             executor := derived_executor m (executor p) |} n1
  end.
Proof.
  intros Hb. destruct (is_withPlugin m) eqn:Hm.
  - destruct m; try discriminate Hm. simpl.
    destruct Hb as [Hb Hn]. rewrite (withPlugin_run s b p plugin Hb).
    destruct (rewrapped_spec s
                (with_executor p (QueryExecutor_withPlugin (executor p) plugin)))
      as (b1 & s1 & -> & Hb1 & Hsub & Hb1' & _).
    exists b1, s1, (queryNode p). split; [done|]. split; [done|].
    split; [done|]. split; [done|]. by eapply lookup_weaken.
  - rewrite (invoke_derived m b p n s Hb Hm).
    rewrite (derived_executor_same m _ Hm).
    destruct (derived_fields m n) as [n1|e]; [|done].
    destruct (derived_spec s p n1)
      as (r & b1 & s1 & -> & _ & Hb1 & _ & Hsub & Hr' & Hb1' & _).
    exists b1, s1, r. split; [done|]. split; [done|]. split; [done|].
    by split.
Qed.

Lemma invoke_result m s b p n b1 s1 :
  is_builder s b p n →
  invoke m b s = (Ret b1, s1) →
  ∃ r n1,
    derived_fields m n = Ok n1 ∧
    heap s ⊆ heap s1 ∧
    is_builder s1 b1
      {| queryId := queryId p; queryNode := r;
         executor := derived_executor m (executor p) |} n1.
Proof.
  intros Hb Hrun. pose proof (invoke_spec m b p n s Hb) as Hspec.
  destruct (derived_fields m n) as [n1|e].
  - destruct Hspec as (b1' & s1' & r & Hrun' & _ & Hsub & Hb1).
    rewrite Hrun' in Hrun. injection Hrun as <- <-. by exists r, n1.
  - by rewrite Hspec in Hrun.
Qed.

Lemma keeps_clauses_refl n : keeps_clauses n n.
Proof. by repeat split. Qed.

Lemma keeps_clauses_trans n1 n2 n3 :
  keeps_clauses n1 n2 → keeps_clauses n2 n3 → keeps_clauses n1 n3.
Proof.
  intros (Hi & He & Hc & Hv & Hr & Ho & Hd & Hg)
         (Hi' & He' & Hc' & Hv' & Hr' & Ho' & Hd' & Hg').
  repeat split; try congruence; auto.
Qed.

Lemma spread_keeps {A} (old override : option A) :
  is_Some old → is_Some (spread old override).
Proof. by destruct override. Qed.

Lemma cloneWith_fields_keeps n props :
  (∀ flag, set_ignore props = Some flag → flag = true) →
  keeps_clauses n (cloneWith_fields n props).
Proof.
  intros Hflag. repeat split; simpl; try apply spread_keeps; try done.
  intros Hignore. destruct (set_ignore props) as [flag|]; [|done].
  simpl. by rewrite (Hflag flag eq_refl).
Qed.

Lemma derived_fields_keeps m n n1 :
  derived_fields m n = Ok n1 → keeps_clauses n n1.
Proof.
  destruct m as [insert|cols|e| |callback|update|selection| |plugin]; simpl.
  - destruct (parseInsertExpression insert) as [[c v]|err]; [|done].
    intros [= <-]. by apply cloneWith_fields_keeps.
  - intros [= <-]. by apply cloneWith_fields_keeps.
  - destruct (parseExpression e) as [v|err]; [|done].
    intros [= <-]. by apply cloneWith_fields_keeps.
  - intros [= <-]. apply cloneWith_fields_keeps. by intros flag [= <-].
  - destruct (callback _) as [built|err]; [|done].
    intros [= <-]. by apply cloneWith_fields_keeps.
  - destruct (parseUpdateExpression update) as [u|err]; [|done].
    intros [= <-]. by apply cloneWith_fields_keeps.
  - destruct (parseSelectArg selection) as [sels|err]; [|done].
    intros [= <-]. by repeat split.
  - intros [= <-]. by repeat split.
  - intros [= <-]. apply keeps_clauses_refl.
Qed.

(** What a successful chain leaves: the plugins that were installed, in
    call order, and a root that lost no clause. *)
Lemma chain_result ms :
  ∀ s b p n b1 s1,
    is_builder s b p n →
    chain ms b s = (Ret b1, s1) →
    ∃ p1 n1,
      is_builder s1 b1 p1 n1 ∧
      queryId p1 = queryId p ∧
      executor p1 = foldl QueryExecutor_withPlugin (executor p) (plugins_of ms) ∧
      keeps_clauses n n1.
Proof.
  induction ms as [|m ms IH]; intros s b p n b1 s1 Hb Hrun; simpl in Hrun.
  - injection Hrun as <- <-. exists p, n.
    split; [done|]. split; [done|]. split; [done|]. apply keeps_clauses_refl.
  - unfold bind in Hrun.
    destruct (invoke m b s) as [[b'|e] s'] eqn:Hm; [|done].
    destruct (invoke_result m s b p n b' s' Hb Hm) as (r & n' & Hn' & _ & Hb').
    destruct (IH s' b' _ n' b1 s1 Hb' Hrun) as (p1 & n1 & Hb1 & Hq & Hex & Hk).
    exists p1, n1. split; [done|]. split; [done|]. split.
    + rewrite Hex. simpl. by destruct m.
    + eapply keeps_clauses_trans; [|exact Hk]. by eapply derived_fields_keeps.
Qed.

(** X3.  A chain of method calls stops at the first call whose parser or
    callback rejects its arguments and throws that error; when no call
    rejects, the chain returns a builder. *)
Theorem chain_stops_at_first_rejection ms :
  ∀ b p n s,
    is_builder s b p n →
    match first_rejected ms with
    | Some e => ∃ s', chain ms b s = (Throw e, s')
    | None => ∃ b1 s1 p1 n1, chain ms b s = (Ret b1, s1) ∧ is_builder s1 b1 p1 n1
    end.
Proof.
  induction ms as [|m ms IH]; intros b p n s Hb.
  - simpl. by exists b, s, p, n.
  - unfold first_rejected. simpl.
    pose proof (invoke_spec m b p n s Hb) as Hspec.
    rewrite (rejected_derived_fields m n).
    destruct (derived_fields m n) as [n'|e]; simpl.
    + destruct Hspec as (b' & s' & r & Hrun & _ & _ & Hb').
      unfold bind. rewrite Hrun. exact (IH b' _ n' s' Hb').
    + exists s. unfold bind. by rewrite Hspec.
Qed.

(** X4.  The executor of the builder that a chain of calls returns is
    the receiver's executor with the plugins of the chain's [withPlugin]
    calls installed one after the other, in call order; the other
    methods leave the executor alone. *)
Theorem chain_installs_plugins_in_call_order ms b p n s b1 s1 :
  is_builder s b p n →
  chain ms b s = (Ret b1, s1) →
  ∃ p1 n1,
    is_builder s1 b1 p1 n1 ∧
    executor p1 = foldl QueryExecutor_withPlugin (executor p) (plugins_of ms).
Proof.
  intros Hb Hrun.
  destruct (chain_result ms s b p n b1 s1 Hb Hrun)
    as (p1 & n1 & Hb1 & _ & Hex & _).
  by exists p1, n1.
Qed.

(** X5.  No builder method removes anything: in the root of a builder
    obtained by a chain of calls the target table and the explain clause
    are those of the receiver's root; columns, values, returning clause,
    conflict clause and duplicate-key clause are present if they were
    present in the receiver's root, and an ignore flag that was set is
    still set. *)
Theorem chain_removes_no_clause ms b p n s b1 s1 :
  is_builder s b p n →
  chain ms b s = (Ret b1, s1) →
  ∃ p1 n1,
    is_builder s1 b1 p1 n1 ∧
    into n1 = into n ∧
    Node.explain n1 = Node.explain n ∧
    (is_Some (Node.columns n) → is_Some (Node.columns n1)) ∧
    (is_Some (Node.values n) → is_Some (Node.values n1)) ∧
    (is_Some (Node.returning n) → is_Some (Node.returning n1)) ∧
    (is_Some (Node.onConflict n) → is_Some (Node.onConflict n1)) ∧
    (is_Some (onDuplicateKey n) → is_Some (onDuplicateKey n1)) ∧
    (Node.ignore n = Some true → Node.ignore n1 = Some true).
Proof.
  intros Hb Hrun.
  destruct (chain_result ms s b p n b1 s1 Hb Hrun)
    as (p1 & n1 & Hb1 & _ & _ & Hkeeps).
  by exists p1, n1.
Qed.

(** X16.  A call changes only the parts it names.  The builder it
    returns has the receiver's query id, target table and explain
    clause, and every part that the method does not set (columns,
    values, returning clause, conflict clause, duplicate-key clause,
    ignore flag, executor) has the value it had in the receiver. *)
Theorem call_changes_only_its_parts m b p n s b1 s1 :
  is_builder s b p n →
  invoke m b s = (Ret b1, s1) →
  ∃ p1 n1,
    is_builder s1 b1 p1 n1 ∧
    queryId p1 = queryId p ∧
    into n1 = into n ∧
    Node.explain n1 = Node.explain n ∧
    ∀ x, existsb (Part_eqb x) (touches m) = false →
         part_unchanged x p p1 n n1.
Proof.
  intros Hb Hrun.
  destruct (invoke_result m s b p n b1 s1 Hb Hrun) as (r & n1 & Hn1 & _ & Hb1).
  eexists _, n1. split; [exact Hb1|]. split; [done|].
  destruct (derived_fields_keeps m n n1 Hn1) as (Hinto & Hexplain & _).
  split; [done|]. split; [done|].
  intros x Hx.
  destruct m; simpl in Hn1; repeat case_match; simplify_eq;
    by destruct x.
Qed.

Lemma overrides_fields m' m n n1 n2 :
  overrides m' m = true →
  derived_fields m n = Ok n1 →
  derived_fields m' n1 = Ok n2 →
  derived_fields m' n = Ok n2.
Proof.
  intros Hov H1 H2.
  destruct m, m'; try discriminate Hov; simpl in *;
    repeat case_match; simplify_eq; done.
Qed.

Lemma overrides_no_plugin m' m :
  overrides m' m = true → is_withPlugin m = false ∧ is_withPlugin m' = false.
Proof. by destruct m, m'. Qed.

(** X6.  Last call wins.  When a call [m'] sets again every part that an
    earlier call [m] set ([values] after [values], [columns] or
    [expression]; [columns] after [columns]; [expression] after
    [expression]; [ignore] after [ignore]; [onConflict] after
    [onConflict]; [onDuplicateKeyUpdate] after [onDuplicateKeyUpdate]),
    the builder [b.m(..).m'(..)] has a root with the same contents as
    the root of [b.m'(..)], and the same query id and executor: nothing
    of the earlier call is merged in. *)
Theorem last_call_wins m m' b p n s b1 s1 b2 s2 :
  overrides m' m = true →
  is_builder s b p n →
  invoke m b s = (Ret b1, s1) →
  invoke m' b1 s1 = (Ret b2, s2) →
  ∃ b3 s3 p2 p3 n2,
    invoke m' b s2 = (Ret b3, s3) ∧
    is_builder s3 b2 p2 n2 ∧
    is_builder s3 b3 p3 n2 ∧
    queryId p2 = queryId p3 ∧
    executor p2 = executor p3.
Proof.
  intros Hov Hb Hrun1 Hrun2.
  destruct (overrides_no_plugin m' m Hov) as [Hm Hm'].
  destruct (invoke_result m s b p n b1 s1 Hb Hrun1)
    as (r1 & n1 & Hn1 & Hsub1 & Hb1).
  destruct (invoke_result m' s1 b1 _ n1 b2 s2 Hb1 Hrun2)
    as (r2 & n2 & Hn2 & Hsub2 & Hb2).
  simpl in Hb2.
  assert (is_builder s2 b p n) as Hb_s2.
  { eapply is_builder_weaken; [exact Hsub2|].
    by eapply is_builder_weaken. }
  pose proof (invoke_spec m' b p n s2 Hb_s2) as Hspec.
  rewrite (overrides_fields m' m n n1 n2 Hov Hn1 Hn2) in Hspec.
  destruct Hspec as (b3 & s3 & r3 & Hrun3 & _ & Hsub3 & Hb3).
  eexists b3, s3, _, _, n2. split; [exact Hrun3|].
  split; [by eapply is_builder_weaken|]. split; [exact Hb3|].
  split; [done|]. simpl.
  by rewrite !(derived_executor_same m'), (derived_executor_same m).
Qed.

Lemma independent_fields m1 m2 n n1 n12 :
  independent m1 m2 = true →
  derived_fields m1 n = Ok n1 →
  derived_fields m2 n1 = Ok n12 →
  ∃ n2, derived_fields m2 n = Ok n2 ∧ derived_fields m1 n2 = Ok n12.
Proof.
  intros Hind H1 H2.
  destruct m1, m2; try discriminate Hind; simpl in *;
    repeat case_match; simplify_eq; by eexists.
Qed.

Lemma independent_executor m1 m2 ex :
  independent m1 m2 = true →
  derived_executor m2 (derived_executor m1 ex) =
  derived_executor m1 (derived_executor m2 ex).
Proof. by destruct m1, m2. Qed.

(** X7.  Calls that set no part in common commute.  If [m1] and [m2]
    set different parts of the builder (for instance [ignore] and
    [returning], or [withPlugin] and [values]), then [b.m2(..).m1(..)]
    returns whenever [b.m1(..).m2(..)] does, and the two builders have
    roots with equal contents, the same query id and the same
    executor. *)
Theorem independent_calls_commute m1 m2 b p n s b1 s1 b12 s12 :
  independent m1 m2 = true →
  is_builder s b p n →
  invoke m1 b s = (Ret b1, s1) →
  invoke m2 b1 s1 = (Ret b12, s12) →
  ∃ b2 s2 b21 s21 p12 p21 n',
    invoke m2 b s12 = (Ret b2, s2) ∧
    invoke m1 b2 s2 = (Ret b21, s21) ∧
    is_builder s21 b12 p12 n' ∧
    is_builder s21 b21 p21 n' ∧
    queryId p12 = queryId p21 ∧
    executor p12 = executor p21.
Proof.
  intros Hind Hb Hrun1 Hrun2.
  destruct (invoke_result m1 s b p n b1 s1 Hb Hrun1)
    as (r1 & n1 & Hn1 & Hsub1 & Hb1).
  destruct (invoke_result m2 s1 b1 _ n1 b12 s12 Hb1 Hrun2)
    as (r12 & n12 & Hn12 & Hsub12 & Hb12).
  simpl in Hb12.
  destruct (independent_fields m1 m2 n n1 n12 Hind Hn1 Hn12)
    as (n2 & Hn2 & Hn21).
  assert (is_builder s12 b p n) as Hb_s12.
  { eapply is_builder_weaken; [exact Hsub12|].
    by eapply is_builder_weaken. }
  pose proof (invoke_spec m2 b p n s12 Hb_s12) as Hspec2.
  rewrite Hn2 in Hspec2.
  destruct Hspec2 as (b2 & s2 & r2 & Hrun3 & _ & Hsub2 & Hb2).
  pose proof (invoke_spec m1 b2 _ n2 s2 Hb2) as Hspec1.
  rewrite Hn21 in Hspec1.
  destruct Hspec1 as (b21 & s21 & r21 & Hrun4 & _ & Hsub21 & Hb21).
  simpl in Hb21.
  eexists b2, s2, b21, s21, _, _, n12.
  split; [exact Hrun3|]. split; [exact Hrun4|].
  split.
  { eapply is_builder_weaken; [exact Hsub21|].
    eapply is_builder_weaken; [exact Hsub2|]. exact Hb12. }
  split; [exact Hb21|]. split; [done|]. simpl.
  by apply independent_executor.
Qed.

(** X8.  The type-only methods [$castTo], [castTo], [$assertType] and
    [assertType], and [$if] with a false flag, return a builder that was
    not in use and has the receiver's properties and root; compiling it
    gives the outcome that compiling the receiver gives, through the same
    executor calls. *)
Theorem recast_compiles_the_same c func b p n s :
  is_builder s b p n →
  (∃ b' s',
     recast c b s = (Ret b', s') ∧
     heap s !! b' = None ∧
     is_builder s' b' p n ∧
     fst (compile b' s') = fst (compile b s) ∧
     trace (snd (compile b' s')) = trace (snd (compile b s))) ∧
  (∃ b' s',
     dollar_if false func b s = (Ret b', s') ∧
     heap s !! b' = None ∧
     is_builder s' b' p n ∧
     fst (compile b' s') = fst (compile b s) ∧
     trace (snd (compile b' s')) = trace (snd (compile b s))).
Proof.
  intros Hb. pose proof Hb as [Hb_props Hb_root].
  assert (∃ b' s',
            rewrapped s p = (Ret b', s') ∧
            heap s !! b' = None ∧
            is_builder s' b' p n ∧
            fst (compile b' s') = fst (compile b s) ∧
            trace (snd (compile b' s')) = trace (snd (compile b s)))
    as (b' & s' & Hrun & Hfresh & Hb' & Hfst & Htrace).
  { destruct (rewrapped_spec s p) as (b' & s' & Hrun & Hfresh & Hsub & Hb' & Ht & _).
    exists b', s'. split; [done|]. split; [done|].
    assert (is_builder s' b' p n) as Hb'_s'
      by (split; [done|by eapply lookup_weaken]).
    split; [done|].
    rewrite (compile_run s' b' p n Hb'_s'), (compile_run s b p n Hb).
    split; [done|]. simpl. by rewrite Ht. }
  assert (bind (this_props b) new_InsertQueryBuilder s = rewrapped s p)
    as Hwrap by (by erewrite bind_ret by (by apply this_props_run)).
  split; exists b', s'; (split; [|done]).
  - rewrite <- Hrun, <- Hwrap. by destruct c.
  - by rewrite <- Hrun, <- Hwrap.
Qed.

(** X9.  A plugin installed with [withPlugin] is used when the returned
    builder is compiled and never when the receiver is: compiling the
    new builder goes through [executor.withPlugin(plugin)], compiling
    the receiver afterwards gives the outcome and the executor calls it
    gave before. *)
Theorem withPlugin_does_not_reach_receiver plugin b p n s b' s' :
  is_builder s b p n →
  withPlugin plugin b s = (Ret b', s') →
  let ex' := QueryExecutor_withPlugin (executor p) plugin in
  fst (compile b' s') =
  outcome
    (QueryExecutor_compileQuery ex'
       (QueryExecutor_transformQuery ex' n (queryId p)) (queryId p)) ∧
  trace (snd (compile b' s')) =
  trace s ++
  [EvTransformQuery ex' n (queryId p);
   EvCompileQuery ex' (QueryExecutor_transformQuery ex' n (queryId p))
     (queryId p)] ∧
  fst (compile b s') = fst (compile b s) ∧
  trace (snd (compile b s')) = trace (snd (compile b s)).
Proof.
  intros Hb Hrun ex'. pose proof Hb as [Hb_props Hb_root].
  rewrite (withPlugin_run s b p plugin Hb_props) in Hrun.
  destruct (rewrapped_spec s (with_executor p ex'))
    as (b1 & s1 & Hrun' & _ & Hsub & Hb1 & Ht & _).
  unfold ex' in Hrun'. rewrite Hrun' in Hrun. injection Hrun as <- <-.
  assert (is_builder s1 b1 (with_executor p ex') n) as Hb1'
    by (split; [done|by eapply lookup_weaken]).
  assert (is_builder s1 b p n) as Hb_s1 by (by eapply is_builder_weaken).
  rewrite (compile_run s1 b1 _ n Hb1'), (compile_run s1 b p n Hb_s1),
    (compile_run s b p n Hb).
  simpl. by rewrite Ht.
Qed.

(** ** Failures and round trips of the terminal operations *)

Lemma dispatched_trace s s' evs :
  trace s' = trace s ++ evs → dispatched s s' = List.filter is_dispatch evs.
Proof. intros Ht. unfold dispatched. by rewrite Ht, drop_app_length. Qed.

Lemma dispatched_compile_calls p n :
  List.filter is_dispatch (compile_calls p n) = [].
Proof. done. Qed.

Lemma dispatched_execute_calls p n cq :
  List.filter is_dispatch (execute_calls p n cq) =
  [EvExecuteQuery (executor p) cq (queryId p)].
Proof. done. Qed.

Lemma dispatched_stream_calls p n cq chunkSize :
  List.filter is_dispatch (stream_calls p n cq chunkSize) =
  [EvStream (executor p) cq chunkSize (queryId p)].
Proof. done. Qed.

(** X10.  An error of the compiler surfaces before the driver is
    contacted.  When [compileQuery] fails with [e], then [compile],
    [execute], [executeTakeFirst], [executeTakeFirstOrThrow] (whatever
    its error argument) and [stream] all throw [e]; the executor was
    asked to transform and to compile only, no call reached the driver
    and the driver state is as before. *)
Theorem compile_error_stops_before_driver b p n s e :
  is_builder s b p n →
  QueryExecutor_compileQuery (executor p)
    (QueryExecutor_transformQuery (executor p) n (queryId p)) (queryId p)
  = Err e →
  ∃ s',
    compile b s = (Throw e, s') ∧
    execute b s = (Throw e, s') ∧
    executeTakeFirst b s = (Throw e, s') ∧
    (∀ arg, executeTakeFirstOrThrow arg b s = (Throw e, s')) ∧
    (∀ fuel arg, stream fuel arg b s = (Throw e, s')) ∧
    dispatched s s' = [] ∧
    world s' = world s ∧
    heap s' = heap s.
Proof.
  intros Hb Hcompile. exists (after s (compile_calls p n) (world s)).
  pose proof (execute_run s b p n Hb) as Hexec.
  unfold transformed in Hexec. rewrite Hcompile in Hexec.
  split.
  { rewrite (compile_run s b p n Hb). unfold transformed.
    by rewrite Hcompile. }
  split; [exact Hexec|].
  split; [by rewrite executeTakeFirst_run, Hexec|].
  split.
  { intros arg. by rewrite (executeTakeFirstOrThrow_run s b p n arg Hb), Hexec. }
  split.
  { intros fuel arg. rewrite (stream_run s b p n fuel arg Hb).
    unfold transformed. by rewrite Hcompile. }
  split; [|done].
  by rewrite (dispatched_trace s _ (compile_calls p n)).
Qed.

(** X11.  An error of the driver reaches the caller as it is.  When the
    query compiles to [cq] and the driver fails with [e], then
    [execute], [executeTakeFirst] and [executeTakeFirstOrThrow] throw
    [e]; the error argument of [executeTakeFirstOrThrow] is not used,
    and the driver was contacted once. *)
Theorem driver_error_propagates b p n s cq e w :
  is_builder s b p n →
  QueryExecutor_compileQuery (executor p)
    (QueryExecutor_transformQuery (executor p) n (queryId p)) (queryId p)
  = Ok cq →
  QueryExecutor_executeQuery (executor p) cq (queryId p) (world s)
  = (Err e, w) →
  ∃ s',
    execute b s = (Throw e, s') ∧
    executeTakeFirst b s = (Throw e, s') ∧
    (∀ arg, executeTakeFirstOrThrow arg b s = (Throw e, s')) ∧
    dispatched s s' = [EvExecuteQuery (executor p) cq (queryId p)] ∧
    world s' = w ∧
    heap s' = heap s.
Proof.
  intros Hb Hcompile Hdriver. exists (after s (execute_calls p n cq) w).
  pose proof (execute_run s b p n Hb) as Hexec.
  unfold transformed in Hexec. rewrite Hcompile, Hdriver in Hexec.
  split; [exact Hexec|].
  split; [by rewrite executeTakeFirst_run, Hexec|].
  split.
  { intros arg. by rewrite (executeTakeFirstOrThrow_run s b p n arg Hb), Hexec. }
  split; [|done].
  by rewrite (dispatched_trace s _ (execute_calls p n cq)).
Qed.

(** X12.  One execution, one round trip.  When the query compiles to
    [cq], [execute], [executeTakeFirst] and [executeTakeFirstOrThrow]
    call the executor's [executeQuery] exactly once, with [cq] and the
    builder's query id, whether the driver answers or fails and whether
    rows come back or not, and never open a stream; [stream] opens one
    stream and never calls [executeQuery]; [toOperationNode] and
    [compile] make no call that reaches the driver. *)
Theorem one_dispatch_per_execution b p n s cq :
  is_builder s b p n →
  QueryExecutor_compileQuery (executor p)
    (QueryExecutor_transformQuery (executor p) n (queryId p)) (queryId p)
  = Ok cq →
  dispatched s (final_state Term_toOperationNode b s) = [] ∧
  dispatched s (final_state Term_compile b s) = [] ∧
  dispatched s (final_state Term_execute b s)
  = [EvExecuteQuery (executor p) cq (queryId p)] ∧
  dispatched s (final_state Term_executeTakeFirst b s)
  = [EvExecuteQuery (executor p) cq (queryId p)] ∧
  (∀ arg,
     dispatched s (final_state (Term_executeTakeFirstOrThrow arg) b s)
     = [EvExecuteQuery (executor p) cq (queryId p)]) ∧
  (∀ fuel arg,
     dispatched s (final_state (Term_stream fuel arg) b s)
     = [EvStream (executor p) cq (default 100 arg) (queryId p)]).
Proof.
  intros Hb Hcompile.
  pose proof (execute_run s b p n Hb) as Hexec.
  unfold transformed in Hexec. rewrite Hcompile in Hexec.
  assert (dispatched s (snd (execute b s))
          = [EvExecuteQuery (executor p) cq (queryId p)]) as Hdispatch.
  { rewrite Hexec.
    destruct (QueryExecutor_executeQuery _ _ _ _) as [[result|e] w];
      by rewrite (dispatched_trace s _ (execute_calls p n cq)). }
  split.
  { simpl. rewrite (toOperationNode_run s b p n Hb).
    by rewrite (dispatched_trace s _
                  [EvTransformQuery (executor p) n (queryId p)]). }
  split.
  { simpl. rewrite (compile_run s b p n Hb).
    by rewrite (dispatched_trace s _ (compile_calls p n)). }
  split; [exact Hdispatch|].
  split.
  { simpl. rewrite executeTakeFirst_run.
    by destruct (execute b s) as [[items|e] s']. }
  split.
  - intros arg. simpl. rewrite (executeTakeFirstOrThrow_run s b p n arg Hb).
    rewrite Hexec in Hdispatch |- *.
    destruct (QueryExecutor_executeQuery _ _ _ _) as [[result|e] w];
      [|exact Hdispatch].
    destruct (supportsReturning _ && truthy _); [|exact Hdispatch].
    destruct (rows result) as [|row items]; [|exact Hdispatch].
    simpl.
    by rewrite (dispatched_trace s _
                  (execute_calls p n cq ++
                   [EvTransformQuery (executor p) n (queryId p)]))
      by (simpl; by rewrite <- app_assoc).
  - intros fuel arg. simpl. rewrite (stream_run s b p n fuel arg Hb).
    unfold transformed. rewrite Hcompile.
    apply (dispatched_trace s _ (stream_calls p n cq (default 100 arg))).
    by destruct (for_await_quiet fuel
                   (QueryExecutor_stream (executor p) cq (default 100 arg)
                      (queryId p)) []
                   (after s (stream_calls p n cq (default 100 arg)) (world s)))
      as [-> _].
Qed.

(** X13.  Nothing is cached.  Executing a builder a second time asks
    the executor again to transform, to compile and to execute, with the
    same arguments, and the second round trip starts from the driver
    state the first one left. *)
Theorem execute_again_runs_again b p n s cq :
  is_builder s b p n →
  QueryExecutor_compileQuery (executor p)
    (QueryExecutor_transformQuery (executor p) n (queryId p)) (queryId p)
  = Ok cq →
  let s1 := snd (execute b s) in
  let s2 := snd (execute b s1) in
  trace s2 = trace s ++ execute_calls p n cq ++ execute_calls p n cq ∧
  world s1 =
  snd (QueryExecutor_executeQuery (executor p) cq (queryId p) (world s)) ∧
  world s2 =
  snd (QueryExecutor_executeQuery (executor p) cq (queryId p) (world s1)).
Proof.
  intros Hb Hcompile s1 s2.
  assert (∀ s0, is_builder s0 b p n →
            trace (snd (execute b s0)) = trace s0 ++ execute_calls p n cq ∧
            world (snd (execute b s0)) =
            snd (QueryExecutor_executeQuery (executor p) cq (queryId p)
                   (world s0)) ∧
            heap (snd (execute b s0)) = heap s0) as Hone.
  { intros s0 Hb0. rewrite (execute_run s0 b p n Hb0). unfold transformed.
    rewrite Hcompile.
    by destruct (QueryExecutor_executeQuery _ _ _ _) as [[result|e] w]. }
  destruct (Hone s Hb) as (Ht1 & Hw1 & Hh1). fold s1 in Ht1, Hw1, Hh1.
  assert (is_builder s1 b p n) as Hb1.
  { destruct Hb as [Hb Hn]. unfold is_builder. by rewrite Hh1. }
  destruct (Hone s1 Hb1) as (Ht2 & Hw2 & _). fold s2 in Ht2, Hw2.
  split; [|done]. by rewrite Ht2, Ht1, app_assoc.
Qed.

(** X14.  [explain] executes a copy of the builder whose root carries
    the explain clause, and hands back what [execute] hands back for
    that copy.  When the compiled query has no returning clause, or the
    adapter does not support returning, the caller therefore receives
    the synthesized [InsertResult] and not the rows the driver sent for
    the explain statement; only with a returning clause and adapter
    support does it receive those rows.  The receiver is untouched. *)
Theorem explain_result_follows_execute b p n s fmt opts cq result w :
  is_builder s b p n →
  let node :=
    QueryExecutor_transformQuery (executor p)
      (cloneWithExplain_fields n fmt opts) (queryId p) in
  QueryExecutor_compileQuery (executor p) node (queryId p) = Ok cq →
  QueryExecutor_executeQuery (executor p) cq (queryId p) (world s)
  = (Ok result, w) →
  ∃ s',
    (Node.returning (query cq) = None ∨
     supportsReturning (adapter (executor p)) = false →
     explain fmt opts b s = (Ret [synthesized result], s')) ∧
    (supportsReturning (adapter (executor p)) = true ∧
     is_Some (Node.returning (query cq)) →
     explain fmt opts b s = (Ret (map DriverRow (rows result)), s')) ∧
    trace s' =
    trace s ++
    [EvTransformQuery (executor p) (cloneWithExplain_fields n fmt opts)
       (queryId p);
     EvCompileQuery (executor p) node (queryId p);
     EvExecuteQuery (executor p) cq (queryId p)] ∧
    world s' = w ∧
    is_builder s' b p n.
Proof.
  intros Hb node Hcompile Hdriver.
  destruct (explain_run s b p n fmt opts Hb)
    as (r & b1 & s1 & -> & _ & Hsub & Hb1 & Ht & Hw).
  rewrite (execute_run s1 b1 _ _ Hb1). unfold transformed. simpl.
  fold node. rewrite Hcompile, Hw, Hdriver.
  eexists. split; [|split; [|split; [|split]]].
  - intros [Hnone|Hunsupported].
    + rewrite Hnone. simpl. by rewrite andb_false_r.
    + by rewrite Hunsupported.
  - intros [Hsupported [x Hsome]]. by rewrite Hsupported, Hsome.
  - simpl. by rewrite Ht.
  - done.
  - apply (is_builder_weaken s); [exact Hsub|exact Hb].
Qed.

Lemma for_await_breaks c w k e w' :
  breaks c w k e w' →
  ∀ fuel yielded h t,
    (k < fuel)%nat →
    for_await fuel c yielded {| heap := h; trace := t; world := w |} =
    (Throw e, {| heap := h; trace := t; world := w' |}).
Proof.
  induction 1 as [c w e w' Hnext|c w item c' w' k e w'' Hnext _ IH];
    intros [|fuel] yielded h t Hfuel; try lia.
  - simpl. unfold bind, round_trip. simpl. by rewrite Hnext.
  - simpl. unfold bind, round_trip. simpl. rewrite Hnext. simpl.
    apply IH. lia.
Qed.

(** X15.  A failure of the driver while streaming ends the iteration
    with that error.  When the query compiles to [cq] and the driver
    stream delivers [k] chunks and then fails with [e], a consumer that
    iterates [stream] that far receives the exception [e]; the stream
    was opened once with the requested chunk size and the builder is
    untouched. *)
Theorem stream_propagates_driver_failure b p n s arg cq k e w fuel :
  is_builder s b p n →
  QueryExecutor_compileQuery (executor p)
    (QueryExecutor_transformQuery (executor p) n (queryId p)) (queryId p)
  = Ok cq →
  breaks
    (QueryExecutor_stream (executor p) cq (default 100 arg) (queryId p))
    (world s) k e w →
  (k < fuel)%nat →
  ∃ s',
    stream fuel arg b s = (Throw e, s') ∧
    dispatched s s' = [EvStream (executor p) cq (default 100 arg) (queryId p)] ∧
    world s' = w ∧
    heap s' = heap s.
Proof.
  intros Hb Hcompile Hbreaks Hfuel.
  rewrite (stream_run s b p n fuel arg Hb). unfold transformed.
  rewrite Hcompile. unfold after.
  rewrite (for_await_breaks _ _ _ _ _ Hbreaks fuel [] _ _ Hfuel).
  eexists. split; [done|]. split; [|done].
  by apply (dispatched_trace s _ (stream_calls p n cq (default 100 arg))).
Qed.

End Properties.

(** ** The properties on the example instance *)

#[local] Existing Instance Example.model.
#[local] Existing Instance Example.collaborators.

(** Builder 2 of the example store is the [person] query. *)
Lemma example_person_builder :
  is_builder Example.s0 2 Example.person_props Example.person.
Proof. split; reflexivity. Defined.

(** Builder 4 of the example store is the [pet] query. *)
Lemma example_pet_builder :
  is_builder Example.s0 4 Example.pet_props Example.pet.
Proof. split; reflexivity. Defined.

(** C1 as worded fails for [withPlugin]: called twice on builder 2 it
    gives builders 5 and 6, which both hold node 1, the root of builder
    2, so the two roots are one and the same object. *)
Lemma withPlugin_shares_root :
  ¬ roots_not_shared (Call_withPlugin "camel_case"%string) 2 Example.s0.
Proof.
  intros Hclaim.
  refine (Hclaim 5%positive _ 6%positive _
            (with_executor Example.person_props _)
            (with_executor Example.person_props _) _ _ _ _ _);
    reflexivity.
Qed.

(** C7 as worded fails for [$if]: [b.$if(true, () => other)], with
    [other] the builder 4 of another query on the same table, returns
    builder 4, whose query id is not that of builder 2. *)
Lemma dollar_if_true_foreign_builder :
  ¬ dollar_if_keeps_queryId true (λ _, ret 4%positive) 2
      Scenario.two_person_queries.
Proof.
  intros Hclaim.
  pose proof (Hclaim Example.person_props 4%positive
                Scenario.two_person_queries Scenario.other_person_props
                eq_refl eq_refl eq_refl) as Hqid.
  discriminate Hqid.
Qed.

(** [b.$if(true, qb => qb.returningAll().$castTo().$if(false, f).ignore())]
    on builder 2 returns a builder with the query id of builder 2. *)
Lemma dollar_if_true_derived_builder :
  ∃ b1 s1 p1,
    dollar_if true (derivation Scenario.returning_recast_ignore) 2%positive
      Example.s0 = (Ret b1, s1) ∧
    heap s1 !! b1 = Some (OBuilder p1) ∧
    queryId p1 = queryId Example.person_props.
Proof.
  destruct (dollar_if true (derivation Scenario.returning_recast_ignore)
              2%positive Example.s0) as [[b1|e] s1] eqn:Hrun;
    [|by vm_compute in Hrun].
  destruct (derivation_keeps_queryId Scenario.returning_recast_ignore
              Example.s0 2 Example.person_props Example.person b1 s1
              example_person_builder Hrun)
    as (p1 & n1 & [Hb1 _] & Hqid).
  by exists b1, s1, p1.
Qed.

Lemma builder_call_leaves_receiver_witness :
  is_builder Example.s0 2 Example.person_props Example.person ∧
  match invoke Call_ignore 2%positive Example.s0 with
  | (Throw e, s1) => rejected Call_ignore = Some e ∧ s1 = Example.s0
  | (Ret b1, s1) =>
      rejected Call_ignore = None ∧
      heap Example.s0 !! b1 = None ∧
      heap Example.s0 ⊆ heap s1 ∧
      trace s1 = trace Example.s0 ∧ world s1 = world Example.s0 ∧
      is_builder s1 2 Example.person_props Example.person ∧
      ∃ p1 n1 b2 s2 p2,
        is_builder s1 b1 p1 n1 ∧
        invoke Call_ignore 2%positive s1 = (Ret b2, s2) ∧
        b2 ≠ b1 ∧
        is_builder s2 2 Example.person_props Example.person ∧
        is_builder s2 b1 p1 n1 ∧
        is_builder s2 b2 p2 n1 ∧
        if is_withPlugin Call_ignore
        then queryNode p1 = queryNode Example.person_props ∧
             queryNode p2 = queryNode Example.person_props
        else queryNode p1 ≠ queryNode p2 ∧
             queryNode p1 ≠ queryNode Example.person_props ∧
             queryNode p2 ≠ queryNode Example.person_props
  end.
Proof.
  split; [exact example_person_builder|].
  exact (builder_call_leaves_receiver Call_ignore 2 Example.person_props
           Example.person Example.s0 example_person_builder).
Defined.

Lemma compile_transforms_then_compiles_witness :
  ∃ s',
    compile 2%positive Example.s0 = (Ret Example.person_compiled, s') ∧
    trace s' =
    [EvTransformQuery Example.postgres Example.person "q1"%string;
     EvCompileQuery Example.postgres Example.person "q1"%string] ∧
    (∀ ev, ev ∈ trace s' → is_dispatch ev = true → ev ∈ trace Example.s0) ∧
    world s' = 0%nat ∧
    heap s' = heap Example.s0.
Proof.
  exact (compile_transforms_then_compiles 2 Example.person_props
           Example.person Example.s0 example_person_builder).
Defined.

Lemma execute_synthesizes_without_returning_witness :
  (Node.returning Example.person = None ∨
   supportsReturning (adapter Example.postgres) = false →
   execute 2%positive Example.s0 =
   (Ret [Synthesized (new_InsertResult (Some 1) (Some 1))],
    after Example.s0
      (execute_calls Example.person_props Example.person
         Example.person_compiled) 1%nat)) ∧
  (supportsReturning (adapter Example.postgres) = true ∧
   is_Some (Node.returning Example.person) →
   execute 2%positive Example.s0 =
   (Ret [DriverRow "row 1"%string],
    after Example.s0
      (execute_calls Example.person_props Example.person
         Example.person_compiled) 1%nat)).
Proof.
  exact (execute_synthesizes_without_returning 2 Example.person_props
           Example.person Example.s0 Example.person_compiled
           (Example.answer Example.person_compiled 0) 1%nat
           example_person_builder eq_refl eq_refl).
Defined.

Lemma executeTakeFirstOrThrow_no_result_witness :
  executeTakeFirstOrThrow None 4%positive Example.s0 =
  (Throw (ErrorInstance NoResultError Example.pet),
   after
     (after Example.s0
        (execute_calls Example.pet_props Example.pet Example.pet_compiled)
        1%nat)
     [EvTransformQuery Example.postgres Example.pet "q2"%string] 1%nat).
Proof.
  exact (executeTakeFirstOrThrow_no_result 4 Example.pet_props Example.pet
           Example.s0 None []
           (after Example.s0
              (execute_calls Example.pet_props Example.pet
                 Example.pet_compiled) 1%nat)
           example_pet_builder eq_refl).
Defined.

Lemma dollar_if_applies_only_when_true_witness :
  dollar_if true returningAll 2%positive Example.s0 =
  returningAll 2%positive Example.s0 ∧
  ∃ b',
    (∀ g, dollar_if false g 2%positive Example.s0 =
          (Ret b', extended Example.s0 b' (OBuilder Example.person_props))) ∧
    heap Example.s0 !! b' = None ∧
    is_builder (extended Example.s0 b' (OBuilder Example.person_props)) b'
      Example.person_props Example.person ∧
    is_builder (extended Example.s0 b' (OBuilder Example.person_props)) 2
      Example.person_props Example.person.
Proof.
  exact (dollar_if_applies_only_when_true 2 Example.person_props
           Example.person Example.s0 returningAll example_person_builder).
Defined.

Lemma withPlugin_changes_only_executor_witness :
  ∃ b' s',
    withPlugin "camel_case"%string 2%positive Example.s0 = (Ret b', s') ∧
    heap Example.s0 !! b' = None ∧
    heap s' =
    <[b' := OBuilder
              {| queryId := "q1"%string : QueryId;
                 queryNode := 1%positive;
                 executor :=
                   {| Example.plugin_names := ["camel_case"%string];
                      Example.returning_supported := true |}
                   : QueryExecutor |}]>
      (heap Example.s0) ∧
    heap s' !! 2%positive = Some (OBuilder Example.person_props) ∧
    heap s' !! 1%positive = Some (ONode Example.person) ∧
    trace s' = trace Example.s0 ∧
    world s' = world Example.s0.
Proof.
  exact (withPlugin_changes_only_executor 2 Example.person_props
           Example.person Example.s0 "camel_case"%string
           example_person_builder).
Defined.

(** The example driver delivers its five rows in chunks of sizes 2, 2
    and 1 when chunks of two are requested. *)
Lemma example_delivers_chunks_of_two :
  delivers
    (QueryExecutor_stream Example.postgres Example.person_compiled 2
       ("q1"%string : QueryId))
    0%nat Example.chunks_of_two 4%nat.
Proof.
  eapply delivers_chunk; [reflexivity|].
  eapply delivers_chunk; [reflexivity|].
  eapply delivers_chunk; [reflexivity|].
  apply delivers_end. reflexivity.
Defined.

Lemma stream_yields_rows_in_chunk_order_witness :
  ∃ s',
    stream 4 (Some 2) 2%positive Example.s0 =
    (Ret (Some ["r1"; "r2"; "r3"; "r4"; "r5"]%string), s') ∧
    trace s' =
    [EvTransformQuery Example.postgres Example.person "q1"%string;
     EvCompileQuery Example.postgres Example.person "q1"%string;
     EvStream Example.postgres Example.person_compiled 2 "q1"%string] ∧
    (Some 2 = None →
     EvStream Example.postgres Example.person_compiled 100 "q1"%string
       ∈ trace s') ∧
    world s' = 4%nat ∧
    heap s' = heap Example.s0.
Proof.
  refine (stream_yields_rows_in_chunk_order 2 Example.person_props
            Example.person Example.s0 (Some 2) Example.person_compiled
            Example.chunks_of_two 4%nat 4 example_person_builder eq_refl
            example_delivers_chunks_of_two (le_n 4)).
Defined.

Lemma execute_without_returning_never_empty_witness :
  let s' :=
    after Example.s0
      (execute_calls Example.person_props Example.person
         Example.person_compiled) 1%nat in
  let items := [Synthesized (new_InsertResult (Some 1) (Some 1))] in
  (∃ cq result,
     QueryExecutor_compileQuery (executor Example.person_props)
       (QueryExecutor_transformQuery (executor Example.person_props)
          Example.person (queryId Example.person_props))
       (queryId Example.person_props) = Ok cq ∧
     fst (QueryExecutor_executeQuery (executor Example.person_props) cq
            (queryId Example.person_props) (world Example.s0))
     = Ok result ∧
     items = [synthesized result]) ∧
  length items = 1%nat ∧
  (∃ item,
     executeTakeFirst 2%positive Example.s0 = (Ret (Some item), s') ∧
     executeTakeFirstOrThrow None 2%positive Example.s0 = (Ret item, s')).
Proof.
  refine (execute_without_returning_never_empty 2 Example.person_props
            Example.person Example.s0 None example_person_builder _).
  intros cq Hcompile. injection Hcompile as <-. left. reflexivity.
Defined.

Lemma queryId_is_threaded_witness :
  let b := 2%positive in
  let p := Example.person_props in
  let n := Example.person in
  let s := Example.s0 in
  (∀ m b1 s1,
     invoke m b s = (Ret b1, s1) →
     ∃ p1, heap s1 !! b1 = Some (OBuilder p1) ∧ queryId p1 = queryId p) ∧
  (∃ b1 s1 p1,
     dollar_castTo b s = (Ret b1, s1) ∧
     heap s1 !! b1 = Some (OBuilder p1) ∧ queryId p1 = queryId p) ∧
  (∀ func, ∃ b1 s1 p1,
     dollar_if false func b s = (Ret b1, s1) ∧
     heap s1 !! b1 = Some (OBuilder p1) ∧ queryId p1 = queryId p) ∧
  (∀ ms b1 s1,
     dollar_if true (chain ms) b s = (Ret b1, s1) →
     ∃ p1, heap s1 !! b1 = Some (OBuilder p1) ∧ queryId p1 = queryId p) ∧
  (∀ sts b1 s1,
     dollar_if true (derivation sts) b s = (Ret b1, s1) →
     ∃ p1, heap s1 !! b1 = Some (OBuilder p1) ∧ queryId p1 = queryId p) ∧
  (∀ fmt opts, ∃ b1 s1 p1 n1,
     explain fmt opts b s = execute b1 s1 ∧
     heap s !! b1 = None ∧
     is_builder s1 b1 p1 n1 ∧ queryId p1 = queryId p) ∧
  (∀ t, calls_carry (queryId p) s (final_state t b s)) ∧
  (EvTransformQuery (executor p) n (queryId p)
     ∈ trace (final_state Term_compile b s) ∧
   EvCompileQuery (executor p)
     (QueryExecutor_transformQuery (executor p) n (queryId p)) (queryId p)
     ∈ trace (final_state Term_compile b s)) ∧
  (∀ cq,
     QueryExecutor_compileQuery (executor p)
       (QueryExecutor_transformQuery (executor p) n (queryId p)) (queryId p)
     = Ok cq →
     EvExecuteQuery (executor p) cq (queryId p)
       ∈ trace (final_state Term_execute b s) ∧
     ∀ fuel arg,
       EvStream (executor p) cq (default 100 arg) (queryId p)
         ∈ trace (final_state (Term_stream fuel arg) b s)).
Proof.
  exact (queryId_is_threaded 2 Example.person_props Example.person
           Example.s0 example_person_builder).
Defined.

(** Builders 2 and 4 of the second example store. *)
Lemma mysql_person_builder :
  is_builder Mysql.s0 2 Mysql.person_props Example.person.
Proof. split; reflexivity. Defined.

Lemma mysql_upsert_builder :
  is_builder Mysql.s0 4 Mysql.upsert_props Mysql.upsert.
Proof. split; reflexivity. Defined.

Lemma chain_stops_at_first_rejection_witness :
  ∃ s',
    chain Scenario.rejected_midway 2%positive Example.s0 =
    (Throw (ShapeError "no rows"), s').
Proof.
  exact (chain_stops_at_first_rejection Scenario.rejected_midway 2
           Example.person_props Example.person Example.s0
           example_person_builder).
Defined.

Lemma chain_installs_plugins_in_call_order_witness :
  ∃ p1 n1,
    is_builder (snd (chain Scenario.plugins_and_ignore 2%positive Example.s0))
      8 p1 n1 ∧
    executor p1 =
    foldl QueryExecutor_withPlugin (executor Example.person_props)
      (plugins_of Scenario.plugins_and_ignore).
Proof.
  exact (chain_installs_plugins_in_call_order Scenario.plugins_and_ignore 2
           Example.person_props Example.person Example.s0 8
           (snd (chain Scenario.plugins_and_ignore 2%positive Example.s0))
           example_person_builder eq_refl).
Defined.

Lemma chain_removes_no_clause_witness :
  ∃ p1 n1,
    is_builder (snd (chain Scenario.columns_then_ignore 4%positive Example.s0))
      8 p1 n1 ∧
    into n1 = into Example.pet ∧
    Node.explain n1 = Node.explain Example.pet ∧
    (is_Some (Node.columns Example.pet) → is_Some (Node.columns n1)) ∧
    (is_Some (Node.values Example.pet) → is_Some (Node.values n1)) ∧
    (is_Some (Node.returning Example.pet) → is_Some (Node.returning n1)) ∧
    (is_Some (Node.onConflict Example.pet) → is_Some (Node.onConflict n1)) ∧
    (is_Some (onDuplicateKey Example.pet) → is_Some (onDuplicateKey n1)) ∧
    (Node.ignore Example.pet = Some true → Node.ignore n1 = Some true).
Proof.
  exact (chain_removes_no_clause Scenario.columns_then_ignore 4
           Example.pet_props Example.pet Example.s0 8
           (snd (chain Scenario.columns_then_ignore 4%positive Example.s0))
           example_pet_builder eq_refl).
Defined.

Lemma last_call_wins_witness :
  let m := Call_onConflict Scenario.on_pkey_do_nothing in
  let m' := Call_onConflict Scenario.on_name_do_update in
  let s1 := snd (invoke m 2%positive Example.s0) in
  let s2 := snd (invoke m' 6%positive s1) in
  ∃ b3 s3 p2 p3 n2,
    invoke m' 2%positive s2 = (Ret b3, s3) ∧
    is_builder s3 8 p2 n2 ∧
    is_builder s3 b3 p3 n2 ∧
    queryId p2 = queryId p3 ∧
    executor p2 = executor p3.
Proof.
  exact (last_call_wins (Call_onConflict Scenario.on_pkey_do_nothing)
           (Call_onConflict Scenario.on_name_do_update) 2
           Example.person_props Example.person Example.s0 6 _ 8 _
           eq_refl example_person_builder eq_refl eq_refl).
Defined.

Lemma independent_calls_commute_witness :
  let s1 := snd (invoke Call_ignore 2%positive Example.s0) in
  let s12 := snd (invoke Call_returningAll 6%positive s1) in
  ∃ b2 s2 b21 s21 p12 p21 n',
    invoke Call_returningAll 2%positive s12 = (Ret b2, s2) ∧
    invoke Call_ignore b2 s2 = (Ret b21, s21) ∧
    is_builder s21 8 p12 n' ∧
    is_builder s21 b21 p21 n' ∧
    queryId p12 = queryId p21 ∧
    executor p12 = executor p21.
Proof.
  exact (independent_calls_commute Call_ignore Call_returningAll 2
           Example.person_props Example.person Example.s0 6 _ 8 _
           eq_refl example_person_builder eq_refl eq_refl).
Defined.

Lemma recast_compiles_the_same_witness :
  (∃ b' s',
     recast Recast_dollar_castTo 2%positive Example.s0 = (Ret b', s') ∧
     heap Example.s0 !! b' = None ∧
     is_builder s' b' Example.person_props Example.person ∧
     fst (compile b' s') = fst (compile 2%positive Example.s0) ∧
     trace (snd (compile b' s')) = trace (snd (compile 2%positive Example.s0))) ∧
  (∃ b' s',
     dollar_if false returningAll 2%positive Example.s0 = (Ret b', s') ∧
     heap Example.s0 !! b' = None ∧
     is_builder s' b' Example.person_props Example.person ∧
     fst (compile b' s') = fst (compile 2%positive Example.s0) ∧
     trace (snd (compile b' s')) = trace (snd (compile 2%positive Example.s0))).
Proof.
  exact (recast_compiles_the_same Recast_dollar_castTo returningAll 2
           Example.person_props Example.person Example.s0
           example_person_builder).
Defined.

Lemma withPlugin_does_not_reach_receiver_witness :
  let s' := snd (withPlugin "camel_case"%string 2%positive Example.s0) in
  let ex' :=
    QueryExecutor_withPlugin (executor Example.person_props)
      "camel_case"%string in
  fst (compile 5%positive s') =
  outcome
    (QueryExecutor_compileQuery ex'
       (QueryExecutor_transformQuery ex' Example.person
          (queryId Example.person_props))
       (queryId Example.person_props)) ∧
  trace (snd (compile 5%positive s')) =
  trace Example.s0 ++
  [EvTransformQuery ex' Example.person (queryId Example.person_props);
   EvCompileQuery ex'
     (QueryExecutor_transformQuery ex' Example.person
        (queryId Example.person_props))
     (queryId Example.person_props)] ∧
  fst (compile 2%positive s') = fst (compile 2%positive Example.s0) ∧
  trace (snd (compile 2%positive s')) =
  trace (snd (compile 2%positive Example.s0)).
Proof.
  exact (withPlugin_does_not_reach_receiver "camel_case"%string 2
           Example.person_props Example.person Example.s0 5 _
           example_person_builder eq_refl).
Defined.

Lemma compile_error_stops_before_driver_witness :
  let e := CapabilityError "on conflict is not supported" in
  ∃ s',
    compile 4%positive Mysql.s0 = (Throw e, s') ∧
    execute 4%positive Mysql.s0 = (Throw e, s') ∧
    executeTakeFirst 4%positive Mysql.s0 = (Throw e, s') ∧
    (∀ arg, executeTakeFirstOrThrow arg 4%positive Mysql.s0 = (Throw e, s')) ∧
    (∀ fuel arg, stream fuel arg 4%positive Mysql.s0 = (Throw e, s')) ∧
    dispatched Mysql.s0 s' = [] ∧
    world s' = world Mysql.s0 ∧
    heap s' = heap Mysql.s0.
Proof.
  exact (compile_error_stops_before_driver 4 Mysql.upsert_props Mysql.upsert
           Mysql.s0 (CapabilityError "on conflict is not supported")
           mysql_upsert_builder eq_refl).
Defined.

Lemma driver_error_propagates_witness :
  let e := DriverError "duplicate key" in
  ∃ s',
    execute 2%positive Mysql.s0 = (Throw e, s') ∧
    executeTakeFirst 2%positive Mysql.s0 = (Throw e, s') ∧
    (∀ arg, executeTakeFirstOrThrow arg 2%positive Mysql.s0 = (Throw e, s')) ∧
    dispatched Mysql.s0 s' =
    [EvExecuteQuery (executor Mysql.person_props) Mysql.person_compiled
       (queryId Mysql.person_props)] ∧
    world s' = 1%nat ∧
    heap s' = heap Mysql.s0.
Proof.
  exact (driver_error_propagates 2 Mysql.person_props Example.person Mysql.s0
           Mysql.person_compiled (DriverError "duplicate key") 1%nat
           mysql_person_builder eq_refl eq_refl).
Defined.

Lemma one_dispatch_per_execution_witness :
  let s := Example.s0 in
  let b := 2%positive in
  let call :=
    EvExecuteQuery (executor Example.person_props) Example.person_compiled
      (queryId Example.person_props) in
  dispatched s (final_state Term_toOperationNode b s) = [] ∧
  dispatched s (final_state Term_compile b s) = [] ∧
  dispatched s (final_state Term_execute b s) = [call] ∧
  dispatched s (final_state Term_executeTakeFirst b s) = [call] ∧
  (∀ arg,
     dispatched s (final_state (Term_executeTakeFirstOrThrow arg) b s)
     = [call]) ∧
  (∀ fuel arg,
     dispatched s (final_state (Term_stream fuel arg) b s)
     = [EvStream (executor Example.person_props) Example.person_compiled
          (default 100 arg) (queryId Example.person_props)]).
Proof.
  exact (one_dispatch_per_execution 2 Example.person_props Example.person
           Example.s0 Example.person_compiled example_person_builder eq_refl).
Defined.

Lemma execute_again_runs_again_witness :
  let s1 := snd (execute 2%positive Example.s0) in
  let s2 := snd (execute 2%positive s1) in
  trace s2 =
  trace Example.s0 ++
  execute_calls Example.person_props Example.person Example.person_compiled ++
  execute_calls Example.person_props Example.person Example.person_compiled ∧
  world s1 =
  snd (QueryExecutor_executeQuery (executor Example.person_props)
         Example.person_compiled (queryId Example.person_props)
         (world Example.s0)) ∧
  world s2 =
  snd (QueryExecutor_executeQuery (executor Example.person_props)
         Example.person_compiled (queryId Example.person_props) (world s1)).
Proof.
  exact (execute_again_runs_again 2 Example.person_props Example.person
           Example.s0 Example.person_compiled example_person_builder eq_refl).
Defined.

Lemma explain_result_follows_execute_witness :
  let p := Example.person_props in
  let cq := Scenario.person_explained_compiled in
  let result := Example.answer cq 0 in
  ∃ s',
    (Node.returning (query cq) = None ∨
     supportsReturning (adapter (executor p)) = false →
     explain (Some "json"%string) None 2%positive Example.s0 =
     (Ret [synthesized result], s')) ∧
    (supportsReturning (adapter (executor p)) = true ∧
     is_Some (Node.returning (query cq)) →
     explain (Some "json"%string) None 2%positive Example.s0 =
     (Ret (map DriverRow (rows result)), s')) ∧
    trace s' =
    trace Example.s0 ++
    [EvTransformQuery (executor p)
       (cloneWithExplain_fields Example.person (Some "json"%string) None)
       (queryId p);
     EvCompileQuery (executor p)
       (QueryExecutor_transformQuery (executor p)
          (cloneWithExplain_fields Example.person (Some "json"%string) None)
          (queryId p))
       (queryId p);
     EvExecuteQuery (executor p) cq (queryId p)] ∧
    world s' = 1%nat ∧
    is_builder s' 2 p Example.person.
Proof.
  exact (explain_result_follows_execute 2 Example.person_props Example.person
           Example.s0 (Some "json"%string) None
           Scenario.person_explained_compiled
           (Example.answer Scenario.person_explained_compiled 0) 1%nat
           example_person_builder eq_refl eq_refl).
Defined.

(** The stream of the second example delivers one chunk and then loses
    the connection. *)
Lemma mysql_stream_breaks :
  breaks
    (QueryExecutor_stream (executor Mysql.person_props) Mysql.person_compiled
       (default 100 None) (queryId Mysql.person_props))
    (world Mysql.s0) 1 (DriverError "connection lost") 1%nat.
Proof.
  eapply breaks_later; [reflexivity|].
  apply breaks_now. reflexivity.
Defined.

Lemma stream_propagates_driver_failure_witness :
  ∃ s',
    stream 2 None 2%positive Mysql.s0 =
    (Throw (DriverError "connection lost"), s') ∧
    dispatched Mysql.s0 s' =
    [EvStream (executor Mysql.person_props) Mysql.person_compiled
       (default 100 None) (queryId Mysql.person_props)] ∧
    world s' = 1%nat ∧
    heap s' = heap Mysql.s0.
Proof.
  exact (stream_propagates_driver_failure 2 Mysql.person_props Example.person
           Mysql.s0 None Mysql.person_compiled 1
           (DriverError "connection lost") 1%nat 2 mysql_person_builder
           eq_refl mysql_stream_breaks (le_n 2)).
Defined.

Lemma call_changes_only_its_parts_witness :
  ∃ p1 n1,
    is_builder
      (snd (invoke (Call_onConflict Scenario.on_pkey_do_nothing) 4%positive
              Example.s0)) 6 p1 n1 ∧
    queryId p1 = queryId Example.pet_props ∧
    into n1 = into Example.pet ∧
    Node.explain n1 = Node.explain Example.pet ∧
    ∀ x,
      existsb (Part_eqb x)
        (touches (Call_onConflict Scenario.on_pkey_do_nothing)) = false →
      part_unchanged x Example.pet_props p1 Example.pet n1.
Proof.
  exact (call_changes_only_its_parts
           (Call_onConflict Scenario.on_pkey_do_nothing) 4 Example.pet_props
           Example.pet Example.s0 6 _ example_pet_builder eq_refl).
Defined.

End InsertQueryBuilder.
